(** * Dharma-Setu front end: citation resolver, graph model, render policy

    A shallow embedding of the pure and state-passing parts of
    [KnowledgeGraph.tsx], [DraftingPanel.tsx] (and its twin [DraftEditor]),
    [page.tsx] and the zustand store [appStore].

    Strings are modelled as [string] (sequences of 8-bit characters); the
    JavaScript string primitives used by the code ([toLowerCase],
    [includes], the [\b] word boundary of a non-unicode [RegExp]) are
    modelled on that alphabet: case folding acts on [A-Z] only, and the word
    characters are exactly [A-Za-z0-9_], as in ECMAScript for a regular
    expression without the [u] and [i] flags. *)

From Stdlib Require Import Ascii String ZArith QArith Lia.
From stdpp Require Import gmap strings list sorting.

Local Open Scope bool_scope.

(** ** JavaScript string primitives *)

Module JS.

Definition isUpper (c : ascii) : bool :=
  (65 <=? nat_of_ascii c)%nat && (nat_of_ascii c <=? 90)%nat.

Definition toLowerChar (c : ascii) : ascii :=
  if isUpper c then ascii_of_nat (nat_of_ascii c + 32) else c.

Fixpoint toLowerCase (s : string) : string :=
  match s with
  | EmptyString => EmptyString
  | String c s' => String (toLowerChar c) (toLowerCase s')
  end.

(** [s.startsWith(p)] *)
Fixpoint startsWith (s p : string) {struct p} : bool :=
  match p, s with
  | EmptyString, _ => true
  | String _ _, EmptyString => false
  | String a p', String b s' => Ascii.eqb a b && startsWith s' p'
  end.

(** [s.includes(sub)] *)
Fixpoint includes (s sub : string) : bool :=
  startsWith s sub ||
  match s with
  | EmptyString => false
  | String _ s' => includes s' sub
  end.

(** A string is truthy when it is not empty. *)
Definition truthy (s : string) : bool :=
  match s with EmptyString => false | String _ _ => true end.

(** An optional property is truthy when present and non-empty. *)
Definition truthy_opt (o : option string) : bool :=
  match o with Some s => truthy s | None => false end.

End JS.

(** ** Entity classifier: [getNodeType] of [KnowledgeGraph.tsx] *)

Inductive NodeType := law | section | case | concept.

Definition law_markers : list string :=
  ["act"; "code"; "bns"; "constitution"; "bharatiya"].
Definition section_markers : list string :=
  ["section"; "article"; "order"; "rule"; "part"].
Definition case_markers : list string := [" v. "; " vs "].

Definition getNodeType (label : string) : NodeType :=
  let lower := JS.toLowerCase label in
  if JS.includes lower "act" || JS.includes lower "code"
     || JS.includes lower "bns" || JS.includes lower "constitution"
     || JS.includes lower "bharatiya" then law
  else if JS.includes lower "section" || JS.includes lower "article"
     || JS.includes lower "order" || JS.includes lower "rule"
     || JS.includes lower "part" then section
  else if JS.includes lower " v. " || JS.includes lower " vs " then case
  else concept.

(** The string value of a node type. *)
Definition typeName (t : NodeType) : string :=
  match t with
  | law => "law"
  | section => "section"
  | case => "case"
  | concept => "concept"
  end.

Definition getNodeColor (type : string) : string :=
  if String.eqb type "law" then "#2563eb"
  else if String.eqb type "section" then "#dc2626"
  else if String.eqb type "case" then "#7c3aed"
  else if String.eqb type "concept" then "#16a34a"
  else "#64748b".

(** The classifier as the specification words it: a case-insensitive
    occurrence of a marker [m] in [label] is a factor of [label] whose
    lower-casing is [m]. *)
Definition occurs_ci (m label : string) : Prop :=
  exists pre mid post,
    label = pre +:+ mid +:+ post /\ JS.toLowerCase mid = m.

Definition any_occurs_ci (ms : list string) (label : string) : Prop :=
  exists m, m ∈ ms /\ occurs_ci m label.

(** Rule table of the specification, first match wins. *)
Inductive classify_rel (label : string) : NodeType -> Prop :=
| classify_law :
    any_occurs_ci law_markers label -> classify_rel label law
| classify_section :
    ~ any_occurs_ci law_markers label ->
    any_occurs_ci section_markers label -> classify_rel label section
| classify_case :
    ~ any_occurs_ci law_markers label ->
    ~ any_occurs_ci section_markers label ->
    any_occurs_ci case_markers label -> classify_rel label case
| classify_concept :
    ~ any_occurs_ci law_markers label ->
    ~ any_occurs_ci section_markers label ->
    ~ any_occurs_ci case_markers label -> classify_rel label concept.

(** Boolean form of "some marker of [ms] occurs in [label]". *)
Definition any_marker (ms : list string) (label : string) : bool :=
  existsb (JS.includes (JS.toLowerCase label)) ms.

(** ** Citation resolver: [getProcessedText] of [DraftingPanel.tsx]
    (the same function appears verbatim in [DraftEditor]) *)

Module Citation.
Record t := mk {
  uuid : string;
  text : string;
  source_doc : string;
  page_number : Z;
  law_type : string;
  score : Q;
  entity_name : option string;
  summary : string
}.
End Citation.

(** A JavaScript [Map] from strings to strings: an association list in
    insertion order ([keys()] iterates in that order). *)
Module JsMap.

Definition t := list (string * string).

Fixpoint get (m : t) (k : string) : option string :=
  match m with
  | [] => None
  | (k', v) :: m' => if String.eqb k' k then Some v else get m' k
  end.

Definition has (m : t) (k : string) : bool :=
  match get m k with Some _ => true | None => false end.

(** [set] overwrites in place when the key is present and appends
    otherwise. *)
Fixpoint set (m : t) (k v : string) : t :=
  match m with
  | [] => [(k, v)]
  | (k', v') :: m' =>
      if String.eqb k' k then (k', v) :: m' else (k', v') :: set m' k v
  end.

Definition keys (m : t) : list string := map fst m.

End JsMap.

(** Body of [citations.forEach(c => ...)]. *)
Definition addCitation (uniqueMap : JsMap.t) (c : Citation.t) : JsMap.t :=
  match Citation.entity_name c with
  | Some name =>
      if JS.truthy name && negb (JsMap.has uniqueMap name)
      then JsMap.set uniqueMap name (Citation.uuid c)
      else uniqueMap
  | None => uniqueMap
  end.

Definition buildUniqueMap (citations : list Citation.t) : JsMap.t :=
  fold_left addCitation citations [].

(** [keys.sort((a, b) => b.length - a.length)]: [Array.prototype.sort] is
    stable, so the result is the one of a stable insertion sort by
    decreasing length. *)
Fixpoint insertByLength (a : string) (l : list string) : list string :=
  match l with
  | [] => [a]
  | b :: l' =>
      if (String.length b <=? String.length a)%nat then a :: b :: l'
      else b :: insertByLength a l'
  end.

Definition sortByLengthDesc (l : list string) : list string :=
  foldr insertByLength [] l.

(** [escapeRegExp]: every character of the class [[.*+?^${}()|[\]\\]] gets a
    backslash in front of it. *)
Definition isSyntaxChar (c : ascii) : bool :=
  existsb (Ascii.eqb c)
    ["."; "*"; "+"; "?"; "^"; "$"; "{"; "}"; "("; ")"; "|"; "["; "]"; "\"]%char.

Fixpoint escapeRegExp (s : string) : string :=
  match s with
  | EmptyString => EmptyString
  | String c s' =>
      if isSyntaxChar c then String "\"%char (String c (escapeRegExp s'))
      else String c (escapeRegExp s')
  end.

(** The pattern sources that [escapeRegExp] can produce are sequences of
    pattern characters and escaped syntax characters; such a source
    matches one literal string, which [literalOfSource] computes. A source
    with a bare syntax character is outside this fragment. *)
Fixpoint literalOfSource (src : string) : option string :=
  match src with
  | EmptyString => Some EmptyString
  | String c src' =>
      if Ascii.eqb c "\"%char then
        match src' with
        | String d src'' =>
            if isSyntaxChar d
            then option_map (String d) (literalOfSource src'')
            else None
        | EmptyString => None
        end
      else if isSyntaxChar c then None
      else option_map (String c) (literalOfSource src')
  end.

(** Word characters of [\b] for a regular expression without the [u] and
    [i] flags: [A-Za-z0-9_]. *)
Definition isWordChar (c : ascii) : bool :=
  let n := nat_of_ascii c in
  ((65 <=? n) && (n <=? 90) || (97 <=? n) && (n <=? 122)
   || (48 <=? n) && (n <=? 57) || (n =? 95))%nat.

Definition isWordAt (o : option ascii) : bool :=
  match o with Some c => isWordChar c | None => false end.

(** [\b] holds between two neighbouring positions when exactly one of them
    is a word character (outside the string counts as a non-word). *)
Definition wordBoundary (left right : option ascii) : bool :=
  xorb (isWordAt left) (isWordAt right).

Definition head (s : string) : option ascii :=
  match s with EmptyString => None | String c _ => Some c end.

Fixpoint last (prev : option ascii) (s : string) : option ascii :=
  match s with EmptyString => prev | String c s' => last (Some c) s' end.

Fixpoint drop (n : nat) (s : string) : string :=
  match n, s with
  | S n', String _ s' => drop n' s'
  | _, _ => s
  end.

(** Does [\b(lit)\b] match at the current position, where [prev] is the
    character before it and [s] the input from the position on. *)
Definition matchesAt (lit : string) (prev : option ascii) (s : string) : bool :=
  JS.startsWith s lit
  && wordBoundary prev (head s)
  && wordBoundary (last prev lit) (head (drop (String.length lit) s)).

(** [GetSubstitution] of ECMAScript for a pattern with one capturing group
    (equal to the whole match) and no named group: [$$], [$&], [$`], [$'],
    [$1] and [$01] are expanded, any other [$] is kept. *)
Fixpoint getSubstitution (matched before after template : string) : string :=
  match template with
  | EmptyString => EmptyString
  | String "$" (String "$" t) =>
      String "$" (getSubstitution matched before after t)
  | String "$" (String "&" t) =>
      matched +:+ getSubstitution matched before after t
  | String "$" (String "`" t) =>
      before +:+ getSubstitution matched before after t
  | String "$" (String "'" t) =>
      after +:+ getSubstitution matched before after t
  | String "$" (String "1" t) =>
      matched +:+ getSubstitution matched before after t
  | String "$" (String "0" (String "1" t)) =>
      matched +:+ getSubstitution matched before after t
  | String c t => String c (getSubstitution matched before after t)
  end.


(** [text.replace(regex, template)] for the global regular expression
    [\b(lit)\b]: the input is scanned from left to right; [whole] is the
    complete input and [pos] the current index (for [$`]), [prev] the
    character before the position, [skip] the number of characters of the
    last match still to be passed over. *)
Fixpoint replaceFrom (lit template whole : string) (pos : nat)
    (prev : option ascii) (skip : nat) (s : string) : string :=
  match s with
  | EmptyString =>
      if (skip =? 0)%nat && matchesAt lit prev EmptyString
      then getSubstitution lit whole EmptyString template
      else EmptyString
  | String c s' =>
      match skip with
      | S k => replaceFrom lit template whole (S pos) (Some c) k s'
      | O =>
          if matchesAt lit prev s then
            getSubstitution lit (substring 0 pos whole)
              (drop (String.length lit) s) template
            +:+ match lit with
                | EmptyString =>
                    String c (replaceFrom lit template whole (S pos) (Some c) 0 s')
                | String _ _ =>
                    replaceFrom lit template whole (S pos) (Some c)
                      (String.length lit - 1) s'
                end
          else String c (replaceFrom lit template whole (S pos) (Some c) 0 s')
      end
  end.

Definition replaceWord (lit template text : string) : string :=
  replaceFrom lit template text 0 None 0 text.

(** Body of [entities.forEach(entity => ...)]; [None] stands for the
    [SyntaxError] of [new RegExp] on a source outside the literal
    fragment. A template literal prints a missing uuid as [undefined]. *)
Definition linkEntity (uniqueMap : JsMap.t) (text entity : string)
  : option string :=
  let uuid := default "undefined" (JsMap.get uniqueMap entity) in
  match literalOfSource (escapeRegExp entity) with
  | Some lit => Some (replaceWord lit ("[$1](" +:+ uuid +:+ ")") text)
  | None => None
  end.

Definition linkEntities (uniqueMap : JsMap.t) (entities : list string)
    (text : string) : option string :=
  fold_left (fun acc entity =>
               match acc with
               | Some t => linkEntity uniqueMap t entity
               | None => None
               end) entities (Some text).

Definition getProcessedText (draft : string) (citations : list Citation.t)
  : option string :=
  if negb (JS.truthy draft) then Some EmptyString
  else
    let uniqueMap := buildUniqueMap citations in
    let entities := sortByLengthDesc (JsMap.keys uniqueMap) in
    linkEntities uniqueMap entities draft.

(** The first uuid that the specification associates with a name: the one
    of the first citation, in input order, carrying that non-empty name. *)
Definition carries (name : string) (c : Citation.t) : bool :=
  match Citation.entity_name c with
  | Some n => JS.truthy n && String.eqb n name
  | None => false
  end.

Definition first_uuid (citations : list Citation.t) (name : string)
  : option string :=
  option_map Citation.uuid (find (carries name) citations).

(** Is there a position of [s] at which [\b(lit)\b] matches, [prev] being
    the character before [s]. *)
Fixpoint wordOccurs (lit : string) (prev : option ascii) (s : string) : bool :=
  matchesAt lit prev s ||
  match s with
  | EmptyString => false
  | String c s' => wordOccurs lit (Some c) s'
  end.

(** A citation that the [forEach] can enter in the map:
    [c.entity_name] is truthy. *)
Definition named (c : Citation.t) : bool :=
  JS.truthy_opt (Citation.entity_name c).

(** ** Graph model: [graphData] of [KnowledgeGraph.tsx]

    The interfaces declare [id] and [label] as required strings, but the
    payload is the unchecked result of [response.json()] (kept in a state
    variable of type [any] in [page.tsx]); a property that the received
    object does not have is [None]. Coordinates are only passed through. *)

Module Metadata.
Record t := mk { tooltip : option string; is_cited : option bool }.
End Metadata.

Module GraphNode.
Record t := mk {
  id : option string;
  label : option string;
  type : option string;
  citation_uuid : option string;
  x : option Z;
  y : option Z;
  metadata : option Metadata.t
}.
End GraphNode.

Module GraphEdge.
Record t := mk {
  source : string;
  target : string;
  relation : string;
  label : option string
}.
End GraphEdge.

Module GraphData.
Record t := mk { nodes : list GraphNode.t; edges : list GraphEdge.t }.
End GraphData.

(** Elements of [graphData.nodes] and [graphData.links]. *)
Module RenderNode.
Record t := mk {
  id : option string;
  name : string;
  type : NodeType;
  citationUuid : option string;
  tooltip : option string;
  isCited : option bool
}.
End RenderNode.

Module RenderLink.
Record t := mk { source : string; target : string; label : string }.
End RenderLink.

Module Snapshot.
Record t := mk { nodes : list RenderNode.t; links : list RenderLink.t }.
End Snapshot.

Inductive Exception := TypeError | SyntaxError.

(** [getNodeType(node.label)] calls [label.toLowerCase()], which throws a
    [TypeError] when the label is missing. *)
Definition buildNode (node : GraphNode.t) : Exception + RenderNode.t :=
  match GraphNode.label node with
  | None => inl TypeError
  | Some label =>
      inr {| RenderNode.id := GraphNode.id node;
             RenderNode.name := label;
             RenderNode.type := getNodeType label;
             RenderNode.citationUuid := GraphNode.citation_uuid node;
             RenderNode.tooltip :=
               mbind Metadata.tooltip (GraphNode.metadata node);
             RenderNode.isCited :=
               mbind Metadata.is_cited (GraphNode.metadata node) |}
  end.

(** [data.nodes.map(...)]: the first exception aborts the whole map. *)
Fixpoint buildNodes (nodes : list GraphNode.t)
  : Exception + list RenderNode.t :=
  match nodes with
  | [] => inr []
  | n :: ns =>
      match buildNode n with
      | inl e => inl e
      | inr r =>
          match buildNodes ns with
          | inl e => inl e
          | inr rs => inr (r :: rs)
          end
      end
  end.

(** [edge.label || edge.relation] *)
Definition buildLink (edge : GraphEdge.t) : RenderLink.t :=
  {| RenderLink.source := GraphEdge.source edge;
     RenderLink.target := GraphEdge.target edge;
     RenderLink.label :=
       match GraphEdge.label edge with
       | Some l => if JS.truthy l then l else GraphEdge.relation edge
       | None => GraphEdge.relation edge
       end |}.

Definition graphData (data : GraphData.t) : Exception + Snapshot.t :=
  match buildNodes (GraphData.nodes data) with
  | inl e => inl e
  | inr ns => inr {| Snapshot.nodes := ns;
                     Snapshot.links := map buildLink (GraphData.edges data) |}
  end.

(** Vocabulary of the specification for edges. *)
Definition nodeIds (data : GraphData.t) : list string :=
  omap GraphNode.id (GraphData.nodes data).

Definition dangling (data : GraphData.t) (e : GraphEdge.t) : bool :=
  negb (bool_decide (GraphEdge.source e ∈ nodeIds data)
        && bool_decide (GraphEdge.target e ∈ nodeIds data)).

Definition structurallyValid (data : GraphData.t) : bool :=
  forallb (fun n => match GraphNode.id n, GraphNode.label n with
                    | Some _, Some _ => true
                    | _, _ => false
                    end) (GraphData.nodes data).


(** ** Query submission: [handleSubmit] of [page.tsx] *)

Inductive Role := user | assistant.

Module Message.
Record t := mk {
  role : Role;
  content : string;
  citations : option (list Citation.t)
}.
End Message.

(** The JSON body of the request to [/ask]. *)
Module AskRequest.
Record t := mk {
  query : string;
  include_graph_data : bool;
  language : string;
  input_language : string
}.
End AskRequest.

Module AskResponse.
Record t := mk {
  answer : string;
  citations : option (list Citation.t);
  graph_data : option GraphData.t
}.
End AskResponse.

(** The state variables of [Home] that [handleSubmit] reads or writes. *)
Module Page.
Record t := mk {
  query : string;
  language : string;
  inputLanguageState : string;
  chatMessages : list Message.t;
  graphData : option GraphData.t;
  isLoading : bool
}.
End Page.

(** [!query.trim()]: the trimmed query is empty exactly when every
    character is white space. *)
Fixpoint isBlank (s : string) : bool :=
  match s with
  | EmptyString => true
  | String c s' => Ascii.is_space c && isBlank s'
  end.

(** [handleSubmit] up to its first [await]: the state updates and the
    request handed to [fetch], if any. *)
Definition handleSubmit_send (st : Page.t) : Page.t * option AskRequest.t :=
  if isBlank (Page.query st) then (st, None)
  else
    let userMessage := Message.mk user (Page.query st) None in
    ({| Page.query := EmptyString;
        Page.language := Page.language st;
        Page.inputLanguageState := Page.inputLanguageState st;
        Page.chatMessages := Page.chatMessages st ++ [userMessage];
        Page.graphData := Page.graphData st;
        Page.isLoading := true |},
     Some {| AskRequest.query := Page.query st;
             AskRequest.include_graph_data := true;
             AskRequest.language := Page.language st;
             AskRequest.input_language :=
               if String.eqb (Page.inputLanguageState st) "Native"
               then Page.language st else "English" |}).

(** [handleSubmit] after the [await]s: [Some data] is a response whose
    body parsed, [None] a rejected [fetch] or [json()]. The setters with
    an updater function act on the state at that moment. *)
Definition handleSubmit_receive (outcome : option AskResponse.t)
    (st : Page.t) : Page.t :=
  match outcome with
  | Some data =>
      let assistantMessage :=
        Message.mk assistant (AskResponse.answer data)
          (AskResponse.citations data) in
      {| Page.query := Page.query st;
         Page.language := Page.language st;
         Page.inputLanguageState := Page.inputLanguageState st;
         Page.chatMessages := Page.chatMessages st ++ [assistantMessage];
         Page.graphData :=
           match AskResponse.graph_data data with
           | Some g => Some g
           | None => Page.graphData st
           end;
         Page.isLoading := false |}
  | None =>
      {| Page.query := Page.query st;
         Page.language := Page.language st;
         Page.inputLanguageState := Page.inputLanguageState st;
         Page.chatMessages :=
           Page.chatMessages st ++
           [Message.mk assistant
              "Sorry, I encountered an error processing your request." None];
         Page.graphData := Page.graphData st;
         Page.isLoading := false |}
  end.

(** What the graph panel shows for a page state: nothing without graph
    data, otherwise the result of rendering [KnowledgeGraph] on it. *)
Definition displayed (st : Page.t) : option (Exception + Snapshot.t) :=
  option_map graphData (Page.graphData st).

(** ** Auto-focus effect of [KnowledgeGraph] *)

Inductive CameraCall :=
| centerAt (x y : option Z) (ms : Z)
| zoom (k ms : Z).

(** The graph handle [fgRef.current], seen through the camera calls it
    has received, each with the instant (in ms) at which it was made; the
    handle starts the animation of a call when it receives it. *)
Definition Camera := list (Z * CameraCall).

Definition duration (c : CameraCall) : Z :=
  match c with centerAt _ _ ms => ms | zoom _ ms => ms end.

Definition startsAt (tc : Z * CameraCall) : Z := fst tc.
Definition endsAt (tc : Z * CameraCall) : Z := (fst tc + duration (snd tc))%Z.

Definition autoFocus (now : Z) (focusedNodeId : option string)
    (fgRef : option Camera) (nodes : list GraphNode.t) : option Camera :=
  match focusedNodeId, fgRef with
  | Some f, Some cam =>
      if JS.truthy f then
        match find (fun n => bool_decide (GraphNode.id n = Some f)) nodes with
        | Some node =>
            Some (cam ++ [(now, centerAt (GraphNode.x node) (GraphNode.y node) 1000);
                          (now, zoom 6 2000)])
        | None => fgRef
        end
      else fgRef
  | _, _ => fgRef
  end.

(** ** Node painting: [nodeCanvasObject] of [KnowledgeGraph.tsx] *)

(** The component state [hoveredNode]: [None] is [null], [Some o] the
    [id] property of the node passed to [handleNodeHover]. *)
Definition handleNodeHover (node : option RenderNode.t)
  : option (option string) :=
  match node with
  | Some n => Some (RenderNode.id n)
  | None => None
  end.

Definition isIPC (name : string) : bool := JS.includes name "IPC".
Definition isBNS (name : string) : bool :=
  JS.includes name "BNS" || JS.includes name "Bharatiya".

(** Regime filtering (dimming). *)
Definition regimeOpacity (regimeMode : option string) (name : string) : Q :=
  match regimeMode with
  | Some mode =>
      if JS.truthy mode && negb (String.eqb mode "Compare") then
        if String.eqb mode "IPC" && isBNS name then 1 # 10
        else if String.eqb mode "BNS" && isIPC name then 1 # 10
        else 1
      else 1
  | None => 1
  end.

(** [hoveredNode && hoveredNode === node.id] *)
Definition hoverHighlight (hoveredNode : option (option string))
    (node : RenderNode.t) : bool :=
  match hoveredNode with
  | Some (Some h) => JS.truthy h && bool_decide (RenderNode.id node = Some h)
  | _ => false
  end.

(** [hoveredNode === node.id && node.tooltip] *)
Definition tooltipShown (hoveredNode : option (option string))
    (node : RenderNode.t) : bool :=
  bool_decide (hoveredNode = Some (RenderNode.id node))
  && JS.truthy_opt (RenderNode.tooltip node).

Module NodePaint.
Record t := mk {
  baseOpacity : Q;
  nodeColor : string;
  nodeRadius : Z;
  haloAlpha : option Q;
  fontSize : Q;
  bold : bool;
  tooltip : bool
}.
End NodePaint.

Definition nodeCanvasObject (regimeMode : option string)
    (hoveredNode : option (option string)) (node : RenderNode.t)
    (globalScale : Q) : NodePaint.t :=
  let isLaw := match RenderNode.type node with law => true | _ => false end in
  let hover := hoverHighlight hoveredNode node in
  let baseOpacity :=
    if hover then 1%Q else regimeOpacity regimeMode (RenderNode.name node) in
  let isCited := match RenderNode.isCited node with
                 | Some true => true | _ => false end in
  {| NodePaint.baseOpacity := baseOpacity;
     NodePaint.nodeColor :=
       if hover then "#f59e0b"
       else getNodeColor (typeName (RenderNode.type node));
     NodePaint.nodeRadius := if isLaw then 8 else if isCited then 6 else 4;
     NodePaint.haloAlpha :=
       if isCited then Some (baseOpacity * (2 # 10))%Q else None;
     NodePaint.fontSize := ((if isLaw then 14 else 12) / globalScale)%Q;
     NodePaint.bold := isLaw;
     NodePaint.tooltip := tooltipShown hoveredNode node |}.

(** A label follows the naming convention of the regime other than
    [mode], by the substring tests of the code. *)
Definition otherRegime (mode name : string) : bool :=
  String.eqb mode "IPC" && isBNS name || String.eqb mode "BNS" && isIPC name.

(** ** The shared store [useAppStore] and [handleNodeClick] *)

Module AppStore.

(** A store state: its fields by name; [None] is [null]. *)
Abbreviation t := (gmap string (option string)).

(** zustand's [set(partial)] merges the partial object into the state. *)
Definition set (partial state : t) : t := partial ∪ state.

Definition initial : t := {[ "activeNodeId" := None ]}.

Definition setActiveNodeId (id : option string) (state : t) : t :=
  set {[ "activeNodeId" := id ]} state.

End AppStore.

Definition handleNodeClick (node : RenderNode.t) (store : AppStore.t)
  : AppStore.t :=
  if JS.truthy_opt (RenderNode.citationUuid node)
  then AppStore.setActiveNodeId (RenderNode.citationUuid node) store
  else store.

(** ** Sample data for the examples *)

Definition scenarioCitation (name uuid : string) : Citation.t :=
  {| Citation.uuid := uuid; Citation.text := "";
     Citation.source_doc := ""; Citation.page_number := 0;
     Citation.law_type := ""; Citation.score := 0;
     Citation.entity_name := Some name; Citation.summary := "" |}.

Definition sampleNode (id label : option string) : GraphNode.t :=
  {| GraphNode.id := id; GraphNode.label := label; GraphNode.type := None;
     GraphNode.citation_uuid := None; GraphNode.x := None;
     GraphNode.y := None; GraphNode.metadata := None |}.

Definition placedNode (id : string) (x y : Z) : GraphNode.t :=
  {| GraphNode.id := Some id; GraphNode.label := Some id;
     GraphNode.type := None; GraphNode.citation_uuid := None;
     GraphNode.x := Some x; GraphNode.y := Some y;
     GraphNode.metadata := None |}.

Definition ghostEdge : GraphEdge.t :=
  {| GraphEdge.source := "a"; GraphEdge.target := "ghost";
     GraphEdge.relation := "CITES"; GraphEdge.label := None |}.

Definition danglingPayload : GraphData.t :=
  {| GraphData.nodes := [sampleNode (Some "a") (Some "IPC 302")];
     GraphData.edges := [ghostEdge] |}.

Definition validPayload : GraphData.t :=
  {| GraphData.nodes := [sampleNode (Some "n1") (Some "IPC 302")];
     GraphData.edges := [] |}.

Definition otherPayload : GraphData.t :=
  {| GraphData.nodes := [sampleNode (Some "n2") (Some "BNS 103")];
     GraphData.edges := [] |}.

Definition noIdPayload : GraphData.t :=
  {| GraphData.nodes := [sampleNode None (Some "Theft")];
     GraphData.edges := [] |}.

Definition pageWith (query : string) (g : option GraphData.t) : Page.t :=
  {| Page.query := query; Page.language := "English";
     Page.inputLanguageState := "English"; Page.chatMessages := [];
     Page.graphData := g; Page.isLoading := false |}.

(** [setQuery] *)
Definition setQuery (q : string) (st : Page.t) : Page.t :=
  {| Page.query := q; Page.language := Page.language st;
     Page.inputLanguageState := Page.inputLanguageState st;
     Page.chatMessages := Page.chatMessages st;
     Page.graphData := Page.graphData st;
     Page.isLoading := Page.isLoading st |}.

Definition answerWith (g : option GraphData.t) : AskResponse.t :=
  {| AskResponse.answer := "ok"; AskResponse.citations := None;
     AskResponse.graph_data := g |}.

Definition hoveredSample : RenderNode.t :=
  {| RenderNode.id := Some ""; RenderNode.name := "BNS 103";
     RenderNode.type := getNodeType "BNS 103";
     RenderNode.citationUuid := None;
     RenderNode.tooltip := Some "Murder"; RenderNode.isCited := None |}.

(** ** Link styling and edge labels of [KnowledgeGraph.tsx] *)

Definition linkColor (link : RenderLink.t) : string :=
  if String.eqb (RenderLink.label link) "EQUIVALENT_TO"
  then "#EAB308" else "#94a3b8".

Definition linkWidth (link : RenderLink.t) : Z :=
  if String.eqb (RenderLink.label link) "EQUIVALENT_TO" then 2 else 1.

Definition linkLineDash (link : RenderLink.t) : option (list Z) :=
  if String.eqb (RenderLink.label link) "EQUIVALENT_TO"
  then Some [5; 5]%Z else None.

Module LinkLabelPaint.
Record t := mk {
  fontSize : Q;
  rectX : Q; rectY : Q; rectW : Q; rectH : Q;
  textX : Q; textY : Q
}.
End LinkLabelPaint.

(** [linkCanvasObject]: [None] when nothing is drawn. The end points are
    the coordinates of [link.source] and [link.target]; [measureText] is
    the width the canvas reports for a text at a font size. *)
Definition linkCanvasObject (link : RenderLink.t) (sx sy tx ty : Q)
    (globalScale : Q) (measureText : Q -> string -> Q)
  : option LinkLabelPaint.t :=
  let label := RenderLink.label link in
  if negb (JS.truthy label) || negb (Qle_bool (8 # 10) globalScale) then None
  else
    let fontSize := (10 / globalScale)%Q in
    let textWidth := measureText fontSize label in
    let w := (textWidth + fontSize * (2 # 10))%Q in
    let h := (fontSize + fontSize * (2 # 10))%Q in
    let x := (sx + (tx - sx) / 2)%Q in
    let y := (sy + (ty - sy) / 2)%Q in
    Some {| LinkLabelPaint.fontSize := fontSize;
            LinkLabelPaint.rectX := (x - w / 2)%Q;
            LinkLabelPaint.rectY := (y - h / 2)%Q;
            LinkLabelPaint.rectW := w;
            LinkLabelPaint.rectH := h;
            LinkLabelPaint.textX := x;
            LinkLabelPaint.textY := y |}.

(** ** [Citation.tsx]: [isActive = activeNodeId === uuid] *)

Definition isActive (store : AppStore.t) (uuid : string) : bool :=
  bool_decide (store !! "activeNodeId" = Some (Some uuid)).

(** ** The submit control of [page.tsx] and a session of the chat tab *)

(** [disabled={isLoading || !query.trim()}] *)
Definition submitDisabled (st : Page.t) : bool :=
  Page.isLoading st || isBlank (Page.query st).

Inductive PageEvent :=
| TypeQuery (q : string)
| ClickSubmit
| Respond (outcome : option AskResponse.t).

(** A page together with the number of requests that have been sent and
    not yet answered. A click on the disabled control does nothing, and
    a response can only arrive for a request in flight. *)
Module Session.
Record t := mk { page : Page.t; inFlight : nat }.
End Session.

Definition sessionStep (s : Session.t) (ev : PageEvent) : Session.t :=
  match ev with
  | TypeQuery q =>
      {| Session.page := setQuery q (Session.page s);
         Session.inFlight := Session.inFlight s |}
  | ClickSubmit =>
      if submitDisabled (Session.page s) then s
      else
        match handleSubmit_send (Session.page s) with
        | (st, Some _) =>
            {| Session.page := st; Session.inFlight := S (Session.inFlight s) |}
        | (st, None) =>
            {| Session.page := st; Session.inFlight := Session.inFlight s |}
        end
  | Respond outcome =>
      match Session.inFlight s with
      | O => s
      | S n =>
          {| Session.page := handleSubmit_receive outcome (Session.page s);
             Session.inFlight := n |}
      end
  end.

Definition sessionRun (s : Session.t) (evs : list PageEvent) : Session.t :=
  fold_left sessionStep evs s.

(** ** [handleDraft] and the view of [DraftingPanel.tsx] *)

Module Drafting.
Record t := mk {
  facts : string;
  draft : string;
  citations : list Citation.t;
  activeCitationId : option string;
  isDrafting : bool;
  error : string
}.
End Drafting.

Module DraftRequest.
Record t := mk { facts : string; language : string; input_language : string }.
End DraftRequest.

Module DraftResponse.
Record t := mk { answer : string; citations : option (list Citation.t) }.
End DraftResponse.





(** ** [AuditPanel.tsx] *)

(** [s.endsWith(suffix)] *)
Definition endsWith (s suffix : string) : bool :=
  (String.length suffix <=? String.length s)%nat
  && String.eqb (drop (String.length s - String.length suffix) s) suffix.

(** A [File], seen through its name. *)
Module AuditFile.
Record t := mk { name : string }.
End AuditFile.

Inductive FindingStatus := OUTDATED | WARNING | OK.
Inductive Severity := HIGH | MEDIUM | LOW.

Module Finding.
Record t := mk {
  citation : string;
  status : FindingStatus;
  suggestion : option string;
  reasoning : string;
  severity : Severity
}.
End Finding.

Module AuditResult.
Record t := mk {
  filename : string;
  findings : list Finding.t;
  total_citations : Z
}.
End AuditResult.

Module Audit.
Record t := mk {
  file : option AuditFile.t;
  isAuditing : bool;
  result : option AuditResult.t;
  error : option string;
  isDragging : bool
}.
End Audit.

(** [e.target.files && e.target.files[0]]: the first file of the list. *)
Definition handleFileChange (files : list AuditFile.t) (st : Audit.t)
  : Audit.t :=
  match files with
  | f :: _ =>
      {| Audit.file := Some f; Audit.isAuditing := Audit.isAuditing st;
         Audit.result := None; Audit.error := None;
         Audit.isDragging := Audit.isDragging st |}
  | [] => st
  end.

Definition handleDrop (files : list AuditFile.t) (st : Audit.t) : Audit.t :=
  match files with
  | droppedFile :: _ =>
      if endsWith (AuditFile.name droppedFile) ".txt"
         || endsWith (AuditFile.name droppedFile) ".pdf"
      then {| Audit.file := Some droppedFile;
              Audit.isAuditing := Audit.isAuditing st;
              Audit.result := None; Audit.error := None;
              Audit.isDragging := false |}
      else {| Audit.file := Audit.file st;
              Audit.isAuditing := Audit.isAuditing st;
              Audit.result := Audit.result st;
              Audit.error := Some "Only .txt and .pdf files are supported.";
              Audit.isDragging := false |}
  | [] =>
      {| Audit.file := Audit.file st; Audit.isAuditing := Audit.isAuditing st;
         Audit.result := Audit.result st; Audit.error := Audit.error st;
         Audit.isDragging := false |}
  end.

(** Outcome of the request of [handleAudit]: a parsed body of an [ok]
    response, the [detail] of the body of a response that is not [ok], or
    the message of an exception thrown on the way. *)
Inductive AuditOutcome :=
| AuditOk (data : AuditResult.t)
| AuditNotOk (detail : option string)
| AuditThrown (message : string).

(** [handleAudit] up to its first [await]; the form data is the file. *)
Definition handleAudit_send (st : Audit.t) : Audit.t * option AuditFile.t :=
  match Audit.file st with
  | None => (st, None)
  | Some f =>
      ({| Audit.file := Some f; Audit.isAuditing := true;
          Audit.result := None; Audit.error := None;
          Audit.isDragging := Audit.isDragging st |}, Some f)
  end.

Definition handleAudit_receive (outcome : AuditOutcome) (st : Audit.t)
  : Audit.t :=
  match outcome with
  | AuditOk data =>
      {| Audit.file := Audit.file st; Audit.isAuditing := false;
         Audit.result := Some data; Audit.error := Audit.error st;
         Audit.isDragging := Audit.isDragging st |}
  | AuditNotOk detail =>
      {| Audit.file := Audit.file st; Audit.isAuditing := false;
         Audit.result := Audit.result st;
         Audit.error :=
           Some (if JS.truthy_opt detail then default EmptyString detail
                 else "Audit failed");
         Audit.isDragging := Audit.isDragging st |}
  | AuditThrown message =>
      {| Audit.file := Audit.file st; Audit.isAuditing := false;
         Audit.result := Audit.result st; Audit.error := Some message;
         Audit.isDragging := Audit.isDragging st |}
  end.

(** A payload node with its [type] property replaced. *)
Definition withType (ty : option string) (n : GraphNode.t) : GraphNode.t :=
  {| GraphNode.id := GraphNode.id n; GraphNode.label := GraphNode.label n;
     GraphNode.type := ty;
     GraphNode.citation_uuid := GraphNode.citation_uuid n;
     GraphNode.x := GraphNode.x n; GraphNode.y := GraphNode.y n;
     GraphNode.metadata := GraphNode.metadata n |}.

Definition citedNode (id uuid : string) : GraphNode.t :=
  {| GraphNode.id := Some id; GraphNode.label := Some id;
     GraphNode.type := None; GraphNode.citation_uuid := Some uuid;
     GraphNode.x := None; GraphNode.y := None;
     GraphNode.metadata := None |}.

Definition bridgeEdge (label : option string) : GraphEdge.t :=
  {| GraphEdge.source := "a"; GraphEdge.target := "b";
     GraphEdge.relation := "EQUIVALENT_TO"; GraphEdge.label := label |}.

(** * Properties *)

(** ** Lemmas on the string primitives *)

Section StringFacts.

Lemma startsWith_app (p rest : string) : JS.startsWith (p +:+ rest) p = true.
Proof.
  induction p as [|a p IH]; simpl; [done|].
  rewrite Ascii.eqb_refl. exact IH.
Qed.

Lemma startsWith_split (s p : string) :
  JS.startsWith s p = true -> exists rest, s = p +:+ rest.
Proof.
  revert s. induction p as [|a p IH]; intros s H; simpl in *.
  - by exists s.
  - destruct s as [|b s]; [done|].
    apply andb_true_iff in H as [Hab H].
    apply Ascii.eqb_eq in Hab as ->.
    destruct (IH _ H) as [rest ->]. by exists rest.
Qed.

Lemma includes_here (s sub : string) :
  JS.startsWith s sub = true -> JS.includes s sub = true.
Proof. intros H. destruct s; simpl; by rewrite H. Qed.

Lemma includes_spec (s sub : string) :
  JS.includes s sub = true <-> exists pre post, s = pre +:+ sub +:+ post.
Proof.
  split.
  - induction s as [|c s IH]; simpl; intros H.
    + rewrite orb_false_r in H. destruct (startsWith_split _ _ H) as [r ->].
      by exists EmptyString, r.
    + apply orb_true_iff in H as [H|H].
      * destruct (startsWith_split _ _ H) as [r Hr].
        exists EmptyString, r. exact Hr.
      * destruct (IH H) as (pre & post & ->).
        by exists (String c pre), post.
  - intros (pre & post & ->).
    induction pre as [|c pre IH].
    + apply includes_here. exact (startsWith_app sub post).
    + simpl. rewrite IH. apply orb_true_r.
Qed.

Lemma toLowerCase_app (a b : string) :
  JS.toLowerCase (a +:+ b) = JS.toLowerCase a +:+ JS.toLowerCase b.
Proof. induction a as [|c a IH]; simpl; [done|]. by rewrite IH. Qed.

Lemma toLowerCase_split (s a b : string) :
  JS.toLowerCase s = a +:+ b ->
  exists s1 s2, s = s1 +:+ s2 /\ JS.toLowerCase s1 = a /\ JS.toLowerCase s2 = b.
Proof.
  revert s. induction a as [|c a IH]; intros s H; simpl in *.
  - by exists EmptyString, s.
  - destruct s as [|d s]; simpl in H; [done|].
    injection H as Hc H. destruct (IH _ H) as (s1 & s2 & -> & H1 & H2).
    exists (String d s1), s2. simpl. by rewrite Hc, H1.
Qed.

(** The test the code performs, [lower.includes(m)], is the
    case-insensitive occurrence of the specification. *)
Lemma includes_lower_occurs (label m : string) :
  JS.includes (JS.toLowerCase label) m = true <-> occurs_ci m label.
Proof.
  rewrite includes_spec. split.
  - intros (pre & post & H).
    apply toLowerCase_split in H as (s1 & s2 & -> & _ & H).
    apply toLowerCase_split in H as (mid & s3 & -> & Hm & _).
    by exists s1, mid, s3.
  - intros (pre & mid & post & -> & <-).
    exists (JS.toLowerCase pre), (JS.toLowerCase post).
    by rewrite !toLowerCase_app.
Qed.

End StringFacts.

(** ** The classifier *)

Section Classifier.

Lemma any_marker_spec (ms : list string) (label : string) :
  any_marker ms label = true <-> any_occurs_ci ms label.
Proof.
  unfold any_marker, any_occurs_ci. rewrite existsb_exists. split.
  - intros (m & Hin & H). exists m. split.
    + by apply list_elem_of_In.
    + by apply includes_lower_occurs.
  - intros (m & Hin & H). exists m. split.
    + by apply list_elem_of_In.
    + by apply includes_lower_occurs.
Qed.

Lemma any_marker_false (ms : list string) (label : string) :
  any_marker ms label = false <-> ~ any_occurs_ci ms label.
Proof.
  rewrite <- any_marker_spec. destruct (any_marker ms label); split; done.
Qed.

Lemma any_marker_app (ms1 ms2 : list string) (label : string) :
  any_marker (ms1 ++ ms2) label = any_marker ms1 label || any_marker ms2 label.
Proof. apply existsb_app. Qed.

(** [getNodeType] tests the three marker tables in order. *)
Lemma getNodeType_tables (label : string) :
  getNodeType label =
    if any_marker law_markers label then law
    else if any_marker section_markers label then section
    else if any_marker case_markers label then case
    else concept.
Proof.
  unfold getNodeType, any_marker, law_markers, section_markers, case_markers.
  cbn [existsb]. by rewrite !orb_false_r, !orb_assoc.
Qed.

Lemma classify_rel_getNodeType (label : string) :
  classify_rel label (getNodeType label).
Proof.
  rewrite getNodeType_tables.
  destruct (any_marker law_markers label) eqn:Hl.
  { apply classify_law. by apply any_marker_spec. }
  apply any_marker_false in Hl.
  destruct (any_marker section_markers label) eqn:Hs.
  { apply classify_section; [done|]. by apply any_marker_spec. }
  apply any_marker_false in Hs.
  destruct (any_marker case_markers label) eqn:Hc.
  { apply classify_case; [done..|]. by apply any_marker_spec. }
  apply any_marker_false in Hc. by apply classify_concept.
Qed.

Lemma classify_rel_functional (label : string) (t1 t2 : NodeType) :
  classify_rel label t1 -> classify_rel label t2 -> t1 = t2.
Proof. intros H1 H2. destruct H1; destruct H2; done. Qed.

(** C7: [getNodeType] is a total function into the four types; its result
    is the unique one allowed by the ordered rule table (law markers, then
    subdivision markers, then the case separators, tested as
    case-insensitive substrings); a label with no marker at all is a
    [concept]; a label with the separator " v. " and neither a law nor a
    subdivision marker is a [case]. *)
Theorem getNodeType_classify (label : string) :
  (forall t, classify_rel label t <-> t = getNodeType label) /\
  (~ any_occurs_ci (law_markers ++ section_markers ++ case_markers) label ->
   getNodeType label = concept) /\
  (occurs_ci " v. " label ->
   ~ any_occurs_ci (law_markers ++ section_markers) label ->
   getNodeType label = case).
Proof.
  split; [|split].
  - intros t. split.
    + intros H. exact (classify_rel_functional _ _ _ H (classify_rel_getNodeType label)).
    + intros ->. apply classify_rel_getNodeType.
  - intros H. apply any_marker_false in H.
    rewrite !any_marker_app in H.
    apply orb_false_iff in H as [Hl H]. apply orb_false_iff in H as [Hs Hc].
    by rewrite getNodeType_tables, Hl, Hs, Hc.
  - intros Hv H. apply any_marker_false in H.
    rewrite any_marker_app in H. apply orb_false_iff in H as [Hl Hs].
    assert (Hc : any_marker case_markers label = true).
    { apply any_marker_spec. exists " v. ". split; [|done].
      unfold case_markers. apply list_elem_of_here. }
    by rewrite getNodeType_tables, Hl, Hs, Hc.
Qed.

Lemma getNodeType_classify_witness :
  getNodeType "mens rea" = concept /\
  getNodeType "Maneka Gandhi V. Union of India" = case.
Proof.
  split.
  - apply (getNodeType_classify "mens rea").
    apply any_marker_false. vm_compute. reflexivity.
  - apply (getNodeType_classify "Maneka Gandhi V. Union of India").
    + exists "Maneka Gandhi", " V. ", "Union of India". split; reflexivity.
    + apply any_marker_false. vm_compute. reflexivity.
Defined.

End Classifier.

(** ** The entity map *)

Section EntityMap.

Implicit Types (m : JsMap.t) (k name u v : string) (c : Citation.t).

Lemma truthy_nonempty (s : string) : JS.truthy s = true <-> s <> EmptyString.
Proof. destruct s; simpl; split; done. Qed.

Lemma get_set m k v k' :
  JsMap.get (JsMap.set m k v) k' =
    if String.eqb k k' then Some v else JsMap.get m k'.
Proof.
  induction m as [|[a b] m IH]; simpl.
  - done.
  - destruct (String.eqb_spec a k) as [->|Hak]; simpl.
    + by destruct (String.eqb_spec k k').
    + rewrite IH. destruct (String.eqb_spec a k') as [->|Hak']; [|done].
      by destruct (String.eqb_spec k k').
Qed.

Lemma get_None m k : JsMap.get m k = None <-> k ∉ JsMap.keys m.
Proof.
  induction m as [|[a b] m IH]; simpl.
  - split; [intros _; apply not_elem_of_nil | done].
  - rewrite not_elem_of_cons.
    destruct (String.eqb_spec a k) as [->|Hak]; split; try done.
    + by intros [? _].
    + intros H. split; [done|]. by apply IH.
    + intros [_ H]. by apply IH.
Qed.

Lemma keys_set_fresh m k v :
  JsMap.get m k = None -> JsMap.keys (JsMap.set m k v) = JsMap.keys m ++ [k].
Proof.
  induction m as [|[a b] m IH]; simpl; [done|].
  destruct (String.eqb_spec a k) as [->|Hak]; [done|].
  intros H. simpl. by rewrite <- IH.
Qed.

Lemma elem_of_get m k v :
  NoDup (JsMap.keys m) -> (k, v) ∈ m <-> JsMap.get m k = Some v.
Proof.
  induction m as [|[a b] m IH]; simpl; intros Hnd.
  - split; [by intros ?%elem_of_nil | done].
  - apply NoDup_cons in Hnd as [Ha Hnd]. rewrite elem_of_cons, (IH Hnd).
    destruct (String.eqb_spec a k) as [->|Hak]; split.
    + intros [[= ->]|H]; [done|].
      exfalso. apply Ha.
      destruct (decide (k ∈ JsMap.keys m)) as [|Hn]; [done|].
      apply get_None in Hn. congruence.
    + intros [= ->]. by left.
    + intros [[= -> ->]|H]; done.
    + intros H. by right.
Qed.

Lemma addCitation_get m c name :
  JsMap.get (addCitation m c) name =
    match JsMap.get m name with
    | Some u => Some u
    | None => if carries name c then Some (Citation.uuid c) else None
    end.
Proof.
  unfold addCitation, carries, JsMap.has.
  destruct (Citation.entity_name c) as [n|]; [|by destruct (JsMap.get m name)].
  destruct (JS.truthy n) eqn:Ht; simpl; [|by destruct (JsMap.get m name)].
  destruct (JsMap.get m n) eqn:Hn; simpl.
  - destruct (String.eqb_spec n name) as [->|Hne].
    + by rewrite Hn.
    + by destruct (JsMap.get m name).
  - rewrite get_set. destruct (String.eqb_spec n name) as [->|Hne].
    + by rewrite Hn.
    + by destruct (JsMap.get m name).
Qed.

Lemma addCitation_NoDup m c :
  NoDup (JsMap.keys m) -> NoDup (JsMap.keys (addCitation m c)).
Proof.
  intros Hnd. unfold addCitation, JsMap.has.
  destruct (Citation.entity_name c) as [n|]; [|done].
  destruct (JS.truthy n); simpl; [|done].
  destruct (JsMap.get m n) eqn:Hn; simpl; [done|].
  rewrite keys_set_fresh by done.
  apply NoDup_app. split; [done|]. split.
  - intros x Hx ->%list_elem_of_singleton. by apply get_None in Hn.
  - apply NoDup_singleton.
Qed.

Lemma fold_addCitation_get (cs : list Citation.t) m name :
  JsMap.get (fold_left addCitation cs m) name =
    match JsMap.get m name with
    | Some u => Some u
    | None => first_uuid cs name
    end.
Proof.
  revert m. induction cs as [|c cs IH]; intros m; simpl.
  - unfold first_uuid. simpl. by destruct (JsMap.get m name).
  - rewrite IH, addCitation_get. unfold first_uuid. simpl.
    destruct (JsMap.get m name); [done|]. by destruct (carries name c).
Qed.

Lemma fold_addCitation_NoDup (cs : list Citation.t) m :
  NoDup (JsMap.keys m) -> NoDup (JsMap.keys (fold_left addCitation cs m)).
Proof.
  revert m. induction cs as [|c cs IH]; intros m H; simpl; [done|].
  by apply IH, addCitation_NoDup.
Qed.

Lemma carries_spec name c :
  carries name c = true <->
  Citation.entity_name c = Some name /\ name <> EmptyString.
Proof.
  unfold carries. destruct (Citation.entity_name c) as [n|].
  - rewrite andb_true_iff, truthy_nonempty.
    destruct (String.eqb_spec n name) as [->|Hne]; split.
    + by intros [Hn _].
    + by intros [_ Hn].
    + by intros [_ ?].
    + intros [[= ->] _]. done.
  - split; [done | by intros [? _]].
Qed.

Lemma find_first {A} (P : A -> bool) (l : list A) (a : A) :
  find P l = Some a <->
  exists pre post, l = pre ++ a :: post /\ P a = true /\
                   forall b, b ∈ pre -> P b = false.
Proof.
  induction l as [|b l IH]; simpl.
  - split; [done|]. intros (pre & post & H & _). by destruct pre.
  - destruct (P b) eqn:Hb; split.
    + intros [= ->]. exists [], l. split; [done|]. split; [done|].
      by intros ? ?%elem_of_nil.
    + intros (pre & post & H & Ha & Hpre).
      destruct pre as [|b' pre]; simplify_eq/=; [done|].
      rewrite Hpre in Hb; [done | apply list_elem_of_here].
    + intros H. apply IH in H as (pre & post & -> & Ha & Hpre).
      exists (b :: pre), post. split; [done|]. split; [done|].
      intros b' [->|H]%elem_of_cons; auto.
    + intros (pre & post & H & Ha & Hpre).
      destruct pre as [|b' pre]; simplify_eq/=; [congruence|].
      apply IH. exists pre, post. split; [done|]. split; [done|].
      intros b Hin. apply Hpre. by apply list_elem_of_further.
Qed.

(** C9: the keys of the built map are pairwise distinct, and its entries
    are exactly the pairs (name, uuid) where uuid is the one of the first
    citation, in input order, whose [entity_name] is the non-empty [name]. *)
Theorem buildUniqueMap_first_wins (citations : list Citation.t) :
  NoDup (JsMap.keys (buildUniqueMap citations)) /\
  forall name u,
    (name, u) ∈ buildUniqueMap citations <->
    exists pre c post,
      citations = pre ++ c :: post /\
      Citation.entity_name c = Some name /\ name <> EmptyString /\
      Citation.uuid c = u /\
      forall c', c' ∈ pre -> Citation.entity_name c' <> Some name.
Proof.
  assert (Hnd : NoDup (JsMap.keys (buildUniqueMap citations))).
  { apply fold_addCitation_NoDup. apply NoDup_nil_2. }
  split; [done|]. intros name u.
  rewrite (elem_of_get _ _ _ Hnd). unfold buildUniqueMap.
  rewrite fold_addCitation_get. simpl. unfold first_uuid. split.
  - destruct (find (carries name) citations) as [c|] eqn:Hf; [|done].
    intros [= <-]. apply find_first in Hf as (pre & post & -> & Hc & Hpre).
    apply carries_spec in Hc as [Hn Hne].
    exists pre, c, post. repeat split; try done.
    intros c' Hin Hc'. specialize (Hpre c' Hin).
    assert (carries name c' = true) by by apply carries_spec.
    congruence.
  - intros (pre & c & post & -> & Hn & Hne & <- & Hpre).
    assert (Hf : find (carries name) (pre ++ c :: post) = Some c).
    { apply find_first. exists pre, post. split; [done|]. split.
      - by apply carries_spec.
      - intros b Hin. destruct (carries name b) eqn:Hb; [|done].
        apply carries_spec in Hb as [Hb _]. by destruct (Hpre b Hin). }
    by rewrite Hf.
Qed.

End EntityMap.

(** ** The citation resolver *)

Section Resolver.

Lemma isSyntaxChar_backslash : isSyntaxChar "\"%char = true.
Proof. reflexivity. Qed.

Lemma eqb_backslash_syntax (c : ascii) :
  Ascii.eqb c "\"%char = true -> isSyntaxChar c = true.
Proof. intros ->%Ascii.eqb_eq. reflexivity. Qed.

(** The regular expression built from an escaped name is well formed and
    matches that name literally. *)
Lemma literalOfSource_escapeRegExp (entity : string) :
  literalOfSource (escapeRegExp entity) = Some entity.
Proof.
  induction entity as [|c s IH]; [done|].
  cbn [escapeRegExp]. destruct (isSyntaxChar c) eqn:Hc.
  - cbn [literalOfSource]. rewrite Ascii.eqb_refl, Hc, IH. done.
  - cbn [literalOfSource]. rewrite Hc.
    destruct (Ascii.eqb c "\"%char) eqn:Hb.
    + apply eqb_backslash_syntax in Hb. congruence.
    + by rewrite IH.
Qed.




(** C1, as the code behaves: on the scenario the longer name is linked
    first; the pass for [Act] then links every whole-word [Act] of the
    text so far, the one inside the label just inserted included, so the
    output is
    [Under the [Indian Contract [Act](u2)](u1), the [Act](u2) applies.] *)
Theorem getProcessedText_scenario (c1 c2 : Citation.t) :
  Citation.entity_name c1 = Some "Indian Contract Act" ->
  Citation.uuid c1 = "u1" ->
  Citation.entity_name c2 = Some "Act" ->
  Citation.uuid c2 = "u2" ->
  let draft := "Under the Indian Contract Act, the Act applies." in
  let uniqueMap := buildUniqueMap [c1; c2] in
  sortByLengthDesc (JsMap.keys uniqueMap) = ["Indian Contract Act"; "Act"] /\
  linkEntity uniqueMap draft "Indian Contract Act" =
    Some "Under the [Indian Contract Act](u1), the Act applies." /\
  getProcessedText draft [c1; c2] =
    Some "Under the [Indian Contract [Act](u2)](u1), the [Act](u2) applies.".
Proof.
  destruct c1, c2; simpl. intros -> -> -> ->. by vm_compute.
Qed.

Lemma getProcessedText_scenario_witness :
  getProcessedText "Under the Indian Contract Act, the Act applies."
    [scenarioCitation "Indian Contract Act" "u1"; scenarioCitation "Act" "u2"] =
  Some "Under the [Indian Contract [Act](u2)](u1), the [Act](u2) applies.".
Proof.
  apply (getProcessedText_scenario
           (scenarioCitation "Indian Contract Act" "u1")
           (scenarioCitation "Act" "u2")); reflexivity.
Defined.

(** The output on the scenario is not the one announced: no span
    [[Indian Contract Act](u1)] survives, and the word [Act] inside the
    label is linked a second time. *)
Lemma getProcessedText_scenario_relinked :
  ~ (exists out,
       getProcessedText "Under the Indian Contract Act, the Act applies."
         [scenarioCitation "Indian Contract Act" "u1";
          scenarioCitation "Act" "u2"] = Some out /\
       JS.includes out "[Indian Contract Act](u1)" = true /\
       JS.includes out "the [Act](u2) applies." = true /\
       JS.includes out "Contract [Act](u2)" = false).
Proof.
  intros (out & Hout & H1 & _ & _).
  vm_compute in Hout. injection Hout as <-.
  vm_compute in H1. discriminate H1.
Qed.

End Resolver.

(** ** The graph model *)

Section GraphModel.

Implicit Types (data : GraphData.t) (snap : Snapshot.t).

Lemma buildNodes_inr (nodes : list GraphNode.t) (rs : list RenderNode.t) :
  buildNodes nodes = inr rs ->
  Forall2 (fun n r => buildNode n = inr r) nodes rs.
Proof.
  revert rs. induction nodes as [|n ns IH]; intros rs; simpl.
  - intros [= <-]. constructor.
  - destruct (buildNode n) as [e|r] eqn:Hn; [done|].
    destruct (buildNodes ns) as [e|rs'] eqn:Hns; [done|].
    intros [= <-]. constructor; [done|]. by apply IH.
Qed.

Lemma buildNodes_inl (nodes : list GraphNode.t) (e : Exception) :
  buildNodes nodes = inl e ->
  e = TypeError /\ exists n, n ∈ nodes /\ GraphNode.label n = None.
Proof.
  induction nodes as [|n ns IH]; simpl; [done|].
  destruct (buildNode n) as [e'|r] eqn:Hn.
  - intros [= <-]. unfold buildNode in Hn.
    destruct (GraphNode.label n) eqn:Hl; [done|]. injection Hn as <-.
    split; [done|]. exists n. split; [apply list_elem_of_here | done].
  - destruct (buildNodes ns) as [e'|rs]; [|done].
    intros [= <-]. destruct IH as [-> (n' & Hin & Hl)]; [done|].
    split; [done|]. exists n'. split; [by apply list_elem_of_further | done].
Qed.

Lemma buildNodes_labelled (nodes : list GraphNode.t) :
  Forall (fun n => is_Some (GraphNode.label n)) nodes ->
  exists rs, buildNodes nodes = inr rs.
Proof.
  induction 1 as [|n ns [l Hl] _ [rs IH]]; simpl; [eauto|].
  unfold buildNode. rewrite Hl, IH. eauto.
Qed.

(** The outcome of the build does not depend on the edges. *)
Lemma graphData_edges_irrelevant (nodes : list GraphNode.t)
    (es : list GraphEdge.t) (e : Exception) :
  graphData (GraphData.mk nodes es) = inl e <->
  graphData (GraphData.mk nodes []) = inl e.
Proof.
  unfold graphData. simpl. by destruct (buildNodes nodes).
Qed.

(** C2, as the code behaves: the build keeps every edge. When it
    succeeds, the links of the snapshot are the edges of the payload, one
    for one and in the same order, with source and target unchanged,
    whether or not these name a node of the payload; and whether it
    succeeds is decided by the nodes alone. *)
Theorem graphData_keeps_every_edge data snap :
  graphData data = inr snap ->
  length (Snapshot.links snap) = length (GraphData.edges data) /\
  (forall (i : nat) (e : GraphEdge.t),
     GraphData.edges data !! i = Some e ->
     exists l, Snapshot.links snap !! i = Some l /\
               RenderLink.source l = GraphEdge.source e /\
               RenderLink.target l = GraphEdge.target e) /\
  (forall es, exists snap',
     graphData (GraphData.mk (GraphData.nodes data) es) = inr snap').
Proof.
  unfold graphData.
  destruct (buildNodes (GraphData.nodes data)) as [e|ns] eqn:Hns; [done|].
  intros [= <-]. simpl. split; [apply length_map|]. split.
  - intros i e Hi. exists (buildLink e). split; [|done].
    by rewrite list_lookup_fmap, Hi.
  - intros es. rewrite Hns. eauto.
Qed.

End GraphModel.

Section Ingestion.

(** The edge to the unknown id [ghost] is part of the built snapshot. *)
Lemma graphData_dangling_edge_kept :
  dangling danglingPayload ghostEdge = true /\
  graphData danglingPayload =
    inr {| Snapshot.nodes :=
             [RenderNode.mk (Some "a") "IPC 302" concept None None None];
           Snapshot.links := [RenderLink.mk "a" "ghost" "CITES"] |}.
Proof. split; reflexivity. Qed.

Lemma graphData_keeps_every_edge_witness :
  exists l, [RenderLink.mk "a" "ghost" "CITES"] !! 0%nat = Some l /\
            RenderLink.target l = "ghost".
Proof.
  destruct (graphData_keeps_every_edge danglingPayload
              {| Snapshot.nodes :=
                   [RenderNode.mk (Some "a") "IPC 302" concept None None None];
                 Snapshot.links := [RenderLink.mk "a" "ghost" "CITES"] |}
              eq_refl) as (_ & H & _).
  destruct (H 0%nat ghostEdge eq_refl) as (l & Hl & _ & Ht).
  exists l. split; [exact Hl | exact Ht].
Defined.

(** C3, as the code behaves: nothing validates the payload. The response
    handler stores any graph data that is present, in place of the
    previous one; the build succeeds as soon as every node has a label,
    with or without an id; and a snapshot, when one is built, has one
    render node for each node of the payload, the id passed through. *)
Theorem graphData_unvalidated (data : GraphData.t) :
  (forall st resp,
     AskResponse.graph_data resp = Some data ->
     Page.graphData (handleSubmit_receive (Some resp) st) = Some data) /\
  (Forall (fun n => is_Some (GraphNode.label n)) (GraphData.nodes data) ->
   exists snap, graphData data = inr snap) /\
  (forall snap,
     graphData data = inr snap ->
     Forall2 (fun n r => RenderNode.id r = GraphNode.id n /\
                         GraphNode.label n = Some (RenderNode.name r))
       (GraphData.nodes data) (Snapshot.nodes snap)).
Proof.
  split; [|split].
  - intros st resp H. simpl. by rewrite H.
  - intros H. unfold graphData.
    destruct (buildNodes_labelled _ H) as [rs ->]. eauto.
  - intros snap. unfold graphData.
    destruct (buildNodes (GraphData.nodes data)) as [e|rs] eqn:Hrs; [done|].
    intros [= <-]. simpl. apply buildNodes_inr in Hrs.
    eapply Forall2_impl; [exact Hrs|]. intros n r. unfold buildNode.
    destruct (GraphNode.label n); [|done]. by intros [= <-].
Qed.

Lemma graphData_unvalidated_witness :
  Page.graphData
    (handleSubmit_receive (Some (answerWith (Some noIdPayload)))
       (pageWith "" (Some validPayload))) = Some noIdPayload /\
  exists snap, graphData noIdPayload = inr snap.
Proof.
  destruct (graphData_unvalidated noIdPayload) as (Hstore & Hbuild & _).
  split.
  - apply Hstore. reflexivity.
  - apply Hbuild. repeat constructor. by eexists.
Defined.

(** A payload with a node that has no id is stored in place of the
    previous graph data and is built into a snapshot. *)
Lemma graphData_missing_id_accepted :
  structurallyValid noIdPayload = false /\
  structurallyValid validPayload = true /\
  Page.graphData
    (handleSubmit_receive (Some (answerWith (Some noIdPayload)))
       (pageWith "" (Some validPayload))) <> Some validPayload /\
  displayed
    (handleSubmit_receive (Some (answerWith (Some noIdPayload)))
       (pageWith "" (Some validPayload))) =
  Some (inr {| Snapshot.nodes :=
                 [RenderNode.mk None "Theft" concept None None None];
               Snapshot.links := [] |}).
Proof.
  split; [reflexivity|]. split; [reflexivity|].
  split; [discriminate | reflexivity].
Qed.

End Ingestion.

(** ** Query submission *)

Section Submission.

(** C4, as the code behaves: a request is made of the query, the
    language and the input language alone, so equal inputs give equal
    requests (nothing counts them); and a response that carries graph data
    replaces the current graph data whatever the state it arrives in,
    while one without graph data keeps it. *)
Theorem handleSubmit_no_sequence_token (st st' : Page.t) :
  Page.query st = Page.query st' ->
  Page.language st = Page.language st' ->
  Page.inputLanguageState st = Page.inputLanguageState st' ->
  snd (handleSubmit_send st) = snd (handleSubmit_send st') /\
  (forall data g,
     AskResponse.graph_data data = Some g ->
     Page.graphData (handleSubmit_receive (Some data) st) = Some g) /\
  (forall data,
     AskResponse.graph_data data = None ->
     Page.graphData (handleSubmit_receive (Some data) st) = Page.graphData st).
Proof.
  intros Hq Hl Hi. split; [|split].
  - unfold handleSubmit_send. rewrite Hq, Hl, Hi.
    by destruct (isBlank (Page.query st')).
  - intros data g H. simpl. by rewrite H.
  - intros data H. simpl. by rewrite H.
Qed.

Lemma handleSubmit_no_sequence_token_witness :
  snd (handleSubmit_send (pageWith "theft" None)) =
  snd (handleSubmit_send (pageWith "theft" (Some validPayload))).
Proof.
  apply (handleSubmit_no_sequence_token
           (pageWith "theft" None) (pageWith "theft" (Some validPayload)));
    reflexivity.
Defined.

(** Two submissions of the same query issue the same request, and the
    response to the first of two overlapping requests, arriving last,
    replaces the graph data that the second one had installed. *)
Lemma handleSubmit_stale_response_applied :
  let st0 := pageWith "theft" None in
  let st1 := fst (handleSubmit_send st0) in
  let st2 := fst (handleSubmit_send (setQuery "theft" st1)) in
  let st3 := handleSubmit_receive (Some (answerWith (Some otherPayload))) st2 in
  let st4 := handleSubmit_receive (Some (answerWith (Some validPayload))) st3 in
  is_Some (snd (handleSubmit_send st0)) /\
  snd (handleSubmit_send (setQuery "theft" st1)) = snd (handleSubmit_send st0) /\
  Page.graphData st3 = Some otherPayload /\
  Page.graphData st4 = Some validPayload.
Proof. repeat split. by eexists. Qed.

End Submission.

(** ** The auto-focus effect *)

Section Focus.

Implicit Types (nodes : list GraphNode.t) (cam : Camera).

Lemma find_id_present nodes (f : string) (n : GraphNode.t) :
  n ∈ nodes -> GraphNode.id n = Some f ->
  exists node,
    find (fun n => bool_decide (GraphNode.id n = Some f)) nodes = Some node /\
    node ∈ nodes /\ GraphNode.id node = Some f.
Proof.
  intros Hin Hid.
  destruct (find (fun n => bool_decide (GraphNode.id n = Some f)) nodes)
    as [node|] eqn:Hf.
  - apply find_some in Hf as [Hn Hb]. exists node. split; [done|].
    split; [by apply list_elem_of_In | by apply bool_decide_eq_true in Hb].
  - apply list_elem_of_In in Hin.
    pose proof (find_none _ _ Hf n Hin) as Hb. simpl in Hb.
    by apply bool_decide_eq_false in Hb.
Qed.

Lemma find_id_absent nodes (f : string) :
  (forall n, n ∈ nodes -> GraphNode.id n <> Some f) ->
  find (fun n => bool_decide (GraphNode.id n = Some f)) nodes = None.
Proof.
  intros H.
  destruct (find (fun n => bool_decide (GraphNode.id n = Some f)) nodes)
    as [node|] eqn:Hf; [|done].
  apply find_some in Hf as [Hn Hb].
  apply bool_decide_eq_true in Hb. apply list_elem_of_In in Hn.
  by destruct (H node Hn).
Qed.

(** C5, as the code behaves: for a non-empty focus id carried by a node
    of the payload, with the graph mounted, the effect makes exactly two
    camera calls in one run: [centerAt] on that node's coordinates over
    1000 ms, then [zoom] to the factor 6 over 2000 ms, a strictly longer
    time; both are made at the same instant. *)
Theorem autoFocus_centers_and_zooms (now : Z) (f : string) cam nodes
    (n : GraphNode.t) :
  JS.truthy f = true ->
  n ∈ nodes ->
  GraphNode.id n = Some f ->
  exists node,
    node ∈ nodes /\ GraphNode.id node = Some f /\
    let c := (now, centerAt (GraphNode.x node) (GraphNode.y node) 1000) in
    let z := (now, zoom 6 2000) in
    autoFocus now (Some f) (Some cam) nodes = Some (cam ++ [c; z]) /\
    startsAt z = startsAt c /\
    (duration (snd c) < duration (snd z))%Z.
Proof.
  intros Ht Hin Hid.
  destruct (find_id_present nodes f n Hin Hid) as (node & Hf & Hn & Hi).
  exists node. split; [done|]. split; [done|]. simpl.
  rewrite Ht, Hf. split; [done|]. split; [done|]. lia.
Qed.

Lemma autoFocus_centers_and_zooms_witness :
  exists node,
    node ∈ [placedNode "n1" 10 20] /\ GraphNode.id node = Some "n1" /\
    autoFocus 0 (Some "n1") (Some []) [placedNode "n1" 10 20] =
      Some [(0%Z, centerAt (GraphNode.x node) (GraphNode.y node) 1000);
            (0%Z, zoom 6 2000)].
Proof.
  destruct (autoFocus_centers_and_zooms 0 "n1" [] [placedNode "n1" 10 20]
              (placedNode "n1" 10 20) eq_refl (list_elem_of_here _ _) eq_refl)
    as (node & Hin & Hid & Hrun & _).
  exists node. split; [exact Hin|]. split; [exact Hid | exact Hrun].
Defined.

(** The zoom is requested in the same run as the centering, 1000 ms
    before the centering ends. *)
Lemma autoFocus_zoom_starts_with_centering :
  autoFocus 0 (Some "n1") (Some []) [placedNode "n1" 10 20] =
    Some [(0%Z, centerAt (Some 10%Z) (Some 20%Z) 1000); (0%Z, zoom 6 2000)] /\
  (startsAt (0, zoom 6 2000) <
   endsAt (0, centerAt (Some 10) (Some 20) 1000))%Z.
Proof. split; [reflexivity | by vm_compute]. Qed.

(** C6: a focus request for an id that no node of the current payload
    has, be it as [id] or as [citation_uuid], makes no camera call and
    leaves the graph handle as it was; nothing is raised. *)
Theorem autoFocus_missing_noop (now : Z) (X : string)
    (fgRef : option Camera) nodes :
  (forall n, n ∈ nodes ->
     GraphNode.id n <> Some X /\ GraphNode.citation_uuid n <> Some X) ->
  autoFocus now (Some X) fgRef nodes = fgRef.
Proof.
  intros H. unfold autoFocus. destruct fgRef as [cam|]; [|done].
  destruct (JS.truthy X); [|done].
  rewrite find_id_absent; [done|]. intros n Hn. by apply H.
Qed.

Lemma autoFocus_missing_noop_witness :
  autoFocus 0 (Some "missing-id") (Some []) [] = Some [] /\
  autoFocus 0 (Some "missing-id") (Some []) [placedNode "n1" 10 20] = Some [].
Proof.
  split.
  - apply (autoFocus_missing_noop 0 "missing-id" (Some []) []).
    intros n Hn. by apply elem_of_nil in Hn.
  - apply (autoFocus_missing_noop 0 "missing-id" (Some [])
             [placedNode "n1" 10 20]).
    intros n Hn. apply list_elem_of_singleton in Hn. subst n.
    split; discriminate.
Defined.

End Focus.

(** ** Node painting *)

Section Painting.

Implicit Types (node : RenderNode.t) (hoveredNode : option (option string)).

(** Without the hover highlight, a node is dimmed to 0.1 exactly when its
    label follows the other regime's convention; with it, it is opaque. *)
Lemma nodeCanvasObject_opacity (mode : string) hoveredNode node (scale : Q) :
  mode = "IPC" \/ mode = "BNS" ->
  NodePaint.baseOpacity (nodeCanvasObject (Some mode) hoveredNode node scale) =
    if hoverHighlight hoveredNode node then 1%Q
    else if otherRegime mode (RenderNode.name node) then (1 # 10)%Q
    else 1%Q.
Proof.
  intros [-> | ->]; simpl; unfold otherRegime; simpl;
    by destruct (hoverHighlight hoveredNode node),
                (isBNS (RenderNode.name node)),
                (isIPC (RenderNode.name node)).
Qed.


(** A hovered node with a non-empty id gets the highlight. *)
Lemma hoverHighlight_after_hover node (i : string) :
  RenderNode.id node = Some i -> i <> EmptyString ->
  hoverHighlight (handleNodeHover (Some node)) node = true.
Proof.
  intros Hi Hne. simpl. rewrite Hi.
  apply andb_true_iff. split.
  - by destruct i.
  - by apply bool_decide_eq_true.
Qed.

(** C8 at the failing input: in mode [IPC], the node with the empty id
    and the label [BNS 103], while hovered, is painted at opacity 0.1 in
    its classified colour, although its tooltip is shown. *)
Theorem nodeCanvasObject_hovered_empty_id :
  let hoveredNode := handleNodeHover (Some hoveredSample) in
  let paint := nodeCanvasObject (Some "IPC") hoveredNode hoveredSample 1 in
  hoveredNode = Some (Some EmptyString) /\
  NodePaint.baseOpacity paint = (1 # 10)%Q /\
  NodePaint.nodeColor paint = getNodeColor "law" /\
  NodePaint.tooltip paint = true.
Proof. repeat split. Qed.

End Painting.

(** ** The shared store *)

Section Store.

Implicit Types (node : RenderNode.t) (store : AppStore.t).

Lemma setActiveNodeId_insert (id : option string) store :
  AppStore.setActiveNodeId id store = <["activeNodeId" := id]> store.
Proof.
  unfold AppStore.setActiveNodeId, AppStore.set.
  symmetry. apply insert_union_singleton_l.
Qed.

(** C10: a click changes the store only when the node has a (non-empty)
    [citationUuid], and then writes that uuid to [activeNodeId]; without a
    [citationUuid] the store is returned as it was; and no field other
    than [activeNodeId] is ever changed. *)
Theorem handleNodeClick_frame node store :
  (RenderNode.citationUuid node = None -> handleNodeClick node store = store) /\
  (handleNodeClick node store = store \/
   exists u, RenderNode.citationUuid node = Some u /\ u <> EmptyString /\
             handleNodeClick node store = <["activeNodeId" := Some u]> store) /\
  (forall k, k <> "activeNodeId" ->
             handleNodeClick node store !! k = store !! k).
Proof.
  unfold handleNodeClick. split; [|split].
  - by intros ->.
  - destruct (RenderNode.citationUuid node) as [u|]; simpl; [|by left].
    destruct (JS.truthy u) eqn:Hu; [|by left].
    right. exists u. split; [done|]. split; [by destruct u|].
    apply setActiveNodeId_insert.
  - intros k Hk. destruct (JS.truthy_opt _); [|done].
    rewrite setActiveNodeId_insert. by apply lookup_insert_ne.
Qed.

Lemma handleNodeClick_frame_witness :
  handleNodeClick hoveredSample (<["activeNodeId" := Some "u1"]> AppStore.initial)
    = <["activeNodeId" := Some "u1"]> AppStore.initial /\
  handleNodeClick hoveredSample (<["theme" := Some "dark"]> AppStore.initial)
    !! "theme" = Some (Some "dark").
Proof.
  destruct (handleNodeClick_frame hoveredSample
              (<["activeNodeId" := Some "u1"]> AppStore.initial)) as (H1 & _).
  destruct (handleNodeClick_frame hoveredSample
              (<["theme" := Some "dark"]> AppStore.initial)) as (_ & _ & H2).
  split.
  - apply H1. reflexivity.
  - rewrite H2 by discriminate. reflexivity.
Defined.

End Store.

(** * Further properties of the code *)

(** ** The entity map, continued *)

Section EntityMapOrder.

Implicit Types (m : JsMap.t) (k name u v : string) (c : Citation.t).

Lemma set_fresh m k v :
  JsMap.get m k = None -> JsMap.set m k v = m ++ [(k, v)].
Proof.
  induction m as [|[a b] m IH]; simpl; [done|].
  destruct (String.eqb_spec a k) as [->|Hak]; [done|].
  intros H. by rewrite IH.
Qed.

Lemma addCitation_extends m c :
  exists ext, addCitation m c = m ++ ext /\ (length ext <= 1)%nat.
Proof.
  assert (Hsame : exists ext, m = m ++ ext /\ (length ext <= 1)%nat).
  { exists []. split; [by rewrite app_nil_r | simpl; lia]. }
  unfold addCitation, JsMap.has.
  destruct (Citation.entity_name c) as [n|]; [|done].
  destruct (JS.truthy n); simpl; [|done].
  destruct (JsMap.get m n) eqn:Hn; simpl; [done|].
  exists [(n, Citation.uuid c)]. split; [by apply set_fresh | simpl; lia].
Qed.

Lemma fold_addCitation_extends (cs : list Citation.t) m :
  exists ext, fold_left addCitation cs m = m ++ ext /\
              (length ext <= length cs)%nat.
Proof.
  revert m. induction cs as [|c cs IH]; intros m; simpl.
  - exists []. split; [by rewrite app_nil_r | simpl; lia].
  - destruct (addCitation_extends m c) as (e1 & -> & H1).
    destruct (IH (m ++ e1)) as (e2 & -> & H2).
    exists (e1 ++ e2). rewrite app_assoc, length_app. split; [done | lia].
Qed.

Lemma addCitation_unnamed m c : named c = false -> addCitation m c = m.
Proof.
  unfold named, addCitation, JS.truthy_opt.
  destruct (Citation.entity_name c) as [n|]; [|done]. by intros ->.
Qed.

Lemma addCitation_keys_truthy m c :
  Forall (fun k => JS.truthy k = true) (JsMap.keys m) ->
  Forall (fun k => JS.truthy k = true) (JsMap.keys (addCitation m c)).
Proof.
  intros H. unfold addCitation, JsMap.has.
  destruct (Citation.entity_name c) as [n|]; [|done].
  destruct (JS.truthy n) eqn:Hn; simpl; [|done].
  destruct (JsMap.get m n) eqn:Hg; simpl; [done|].
  rewrite keys_set_fresh by done. apply Forall_app. split; [done|].
  by constructor.
Qed.

Lemma fold_addCitation_keys_truthy (cs : list Citation.t) m :
  Forall (fun k => JS.truthy k = true) (JsMap.keys m) ->
  Forall (fun k => JS.truthy k = true) (JsMap.keys (fold_left addCitation cs m)).
Proof.
  revert m. induction cs as [|c cs IH]; intros m H; simpl; [done|].
  by apply IH, addCitation_keys_truthy.
Qed.

(** X1: citations that come later never change what earlier ones have
    entered: the map of a longer list starts with the map of its prefix,
    entry for entry, and a map has at most one entry per citation. *)
Theorem buildUniqueMap_app (cs cs' : list Citation.t) :
  (exists ext, buildUniqueMap (cs ++ cs') = buildUniqueMap cs ++ ext) /\
  (length (buildUniqueMap cs) <= length cs)%nat.
Proof.
  unfold buildUniqueMap. split.
  - rewrite fold_left_app.
    destruct (fold_addCitation_extends cs' (fold_left addCitation cs []))
      as (ext & -> & _). by exists ext.
  - destruct (fold_addCitation_extends cs []) as (ext & -> & H). done.
Qed.

(** X2: no key of the map is the empty string, and citations without a
    (non-empty) [entity_name] are ignored: leaving them out of the list
    gives the same map. *)
Theorem buildUniqueMap_named_only (cs : list Citation.t) :
  Forall (fun k => k <> EmptyString) (JsMap.keys (buildUniqueMap cs)) /\
  buildUniqueMap (List.filter named cs) = buildUniqueMap cs.
Proof.
  split.
  - eapply Forall_impl.
    + apply (fold_addCitation_keys_truthy cs []). constructor.
    + intros k Hk. by apply truthy_nonempty.
  - unfold buildUniqueMap. generalize ([] : JsMap.t).
    induction cs as [|c cs IH]; intros m; simpl; [done|].
    destruct (named c) eqn:Hc; simpl; [apply IH|].
    rewrite addCitation_unnamed by done. apply IH.
Qed.

End EntityMapOrder.

(** ** The order in which the names are linked *)

Section SortOrder.

Implicit Types (a b : string) (l : list string).

Lemma insertByLength_perm a l : insertByLength a l ≡ₚ a :: l.
Proof.
  induction l as [|b l IH]; simpl; [done|].
  destruct (String.length b <=? String.length a)%nat; [done|].
  rewrite IH. apply Permutation_swap.
Qed.



Lemma sortByLengthDesc_perm l : sortByLengthDesc l ≡ₚ l.
Proof.
  unfold sortByLengthDesc. induction l as [|a l IH]; simpl; [done|].
  by rewrite insertByLength_perm, IH.
Qed.


End SortOrder.

(** ** The citation resolver, continued *)

Section ResolverMore.

Implicit Types (lit template whole text name uuid s : string).

Lemma append_cons (c : ascii) s t : String c s +:+ t = String c (s +:+ t).
Proof. reflexivity. Qed.

Lemma append_empty_r s : s +:+ EmptyString = s.
Proof.
  induction s as [|c s IH]; [done|]. by rewrite append_cons, IH.
Qed.

Lemma startsWith_length s lit :
  JS.startsWith s lit = true -> (String.length lit <= String.length s)%nat.
Proof.
  revert s. induction lit as [|a lit IH]; intros s; simpl; [lia|].
  destruct s as [|b s]; [done|]. intros [_ H]%andb_true_iff.
  apply IH in H. simpl. lia.
Qed.

Lemma matchesAt_short lit prev s :
  (String.length s < String.length lit)%nat -> matchesAt lit prev s = false.
Proof.
  intros H. unfold matchesAt.
  destruct (JS.startsWith s lit) eqn:Hs; [|done].
  apply startsWith_length in Hs. lia.
Qed.

Lemma wordOccurs_short lit prev s :
  (String.length s < String.length lit)%nat -> wordOccurs lit prev s = false.
Proof.
  revert prev. induction s as [|c s IH]; intros prev H; simpl.
  - by rewrite matchesAt_short.
  - rewrite (matchesAt_short lit prev (String c s)) by done.
    apply IH. simpl in H. lia.
Qed.

Lemma includes_wordOccurs lit prev s :
  JS.includes s lit = false -> wordOccurs lit prev s = false.
Proof.
  revert prev. induction s as [|c s IH]; intros prev; simpl.
  - intros [H _]%orb_false_iff. unfold matchesAt. by rewrite H.
  - intros [H1 H2]%orb_false_iff. unfold matchesAt at 1. rewrite H1.
    by apply IH.
Qed.

Lemma replaceFrom_no_word lit template whole (pos : nat) prev s :
  wordOccurs lit prev s = false ->
  replaceFrom lit template whole pos prev 0 s = s.
Proof.
  revert pos prev. induction s as [|c s IH]; intros pos prev; simpl.
  - intros [-> _]%orb_false_iff. done.
  - intros [-> H]%orb_false_iff. by rewrite IH.
Qed.

Lemma replaceFrom_skip_rest lit template whole (pos : nat) prev s :
  lit <> EmptyString ->
  replaceFrom lit template whole pos prev (String.length s) s = EmptyString.
Proof.
  intros Hne. revert pos prev. induction s as [|c s IH]; intros pos prev.
  - simpl. unfold matchesAt. by destruct lit.
  - simpl. apply IH.
Qed.

Lemma linkEntity_no_word (m : JsMap.t) text name :
  wordOccurs name None text = false -> linkEntity m text name = Some text.
Proof.
  intros H. unfold linkEntity, replaceWord.
  rewrite literalOfSource_escapeRegExp. by rewrite replaceFrom_no_word.
Qed.

Lemma linkEntities_no_word (m : JsMap.t) (entities : list string) text :
  Forall (fun name => wordOccurs name None text = false) entities ->
  linkEntities m entities text = Some text.
Proof.
  unfold linkEntities. induction 1 as [|e es He _ IH]; simpl; [done|].
  by rewrite linkEntity_no_word.
Qed.

Lemma key_from_citation (citations : list Citation.t) name :
  name ∈ JsMap.keys (buildUniqueMap citations) ->
  exists c, c ∈ citations /\ Citation.entity_name c = Some name /\
            name <> EmptyString.
Proof.
  intros Hin.
  destruct (JsMap.get (buildUniqueMap citations) name) as [u|] eqn:Hg.
  - unfold buildUniqueMap in Hg. rewrite fold_addCitation_get in Hg.
    simpl in Hg. unfold first_uuid in Hg.
    destruct (find (carries name) citations) as [c|] eqn:Hf; [|done].
    apply find_some in Hf as [Hc Hcar]. apply carries_spec in Hcar as [? ?].
    exists c. split; [by apply list_elem_of_In | done].
  - by apply get_None in Hg.
Qed.


(** X5: a draft in which no name of the citation list occurs as a whole
    word comes back unchanged (in particular for an empty list). *)
Theorem getProcessedText_no_occurrence (draft : string)
    (citations : list Citation.t) :
  (forall c name,
     c ∈ citations -> Citation.entity_name c = Some name ->
     name <> EmptyString -> wordOccurs name None draft = false) ->
  getProcessedText draft citations = Some draft.
Proof.
  intros H. unfold getProcessedText.
  destruct draft as [|a d]; [done|]. simpl negb. cbv iota.
  apply linkEntities_no_word. apply Forall_forall. intros name Hin.
  rewrite sortByLengthDesc_perm in Hin.
  destruct (key_from_citation _ _ Hin) as (c & Hc & Hn & Hne).
  by apply (H c name).
Qed.

Lemma getProcessedText_no_occurrence_witness :
  getProcessedText "Actual facts of the case."
    [scenarioCitation "Act" "u2"; scenarioCitation "Penal Code" "u3"] =
  Some "Actual facts of the case.".
Proof.
  apply getProcessedText_no_occurrence. intros c name Hc Hn _.
  apply elem_of_cons in Hc as [->|Hc].
  - injection Hn as <-. reflexivity.
  - apply list_elem_of_singleton in Hc. subst c.
    injection Hn as <-. reflexivity.
Defined.

End ResolverMore.

(** ** Link text and word boundaries *)

Section LinkFormat.

Implicit Types (matched before after template name uuid s t : string).

Lemma getSubstitution_other matched before after (c : ascii) t :
  c <> "$"%char ->
  getSubstitution matched before after (String c t) =
  String c (getSubstitution matched before after t).
Proof.
  intros Hc.
  destruct c as [[] [] [] [] [] [] [] []]; try reflexivity.
  by destruct Hc.
Qed.

Lemma getSubstitution_no_dollar matched before after s t :
  JS.includes s "$" = false ->
  getSubstitution matched before after (s +:+ t) =
  s +:+ getSubstitution matched before after t.
Proof.
  induction s as [|c s IH]; [done|].
  cbn [JS.includes JS.startsWith]. intros [Hc Hs]%orb_false_iff.
  rewrite andb_true_r in Hc. apply Ascii.eqb_neq in Hc.
  rewrite !append_cons, getSubstitution_other by congruence.
  by rewrite IH.
Qed.

(** The replacement computed for a match, when the uuid has no dollar
    sign, is the markdown link of the matched text to the uuid. *)
Lemma getSubstitution_link matched before after uuid :
  JS.includes uuid "$" = false ->
  getSubstitution matched before after ("[$1](" +:+ uuid +:+ ")") =
  "[" +:+ matched +:+ "](" +:+ uuid +:+ ")".
Proof.
  intros H.
  change ("[$1](" +:+ uuid +:+ ")")
    with (String "[" (String "$" (String "1" ("](" +:+ uuid +:+ ")")))).
  rewrite getSubstitution_other by discriminate.
  change (getSubstitution matched before after
            (String "$" (String "1" ("](" +:+ uuid +:+ ")"))))
    with (matched +:+ getSubstitution matched before after
            ("](" +:+ uuid +:+ ")")).
  change ("](" +:+ uuid +:+ ")")
    with (String "]" (String "(" (uuid +:+ ")"))).
  rewrite !getSubstitution_other by discriminate.
  by rewrite getSubstitution_no_dollar.
Qed.

Lemma drop_all s : drop (String.length s) s = EmptyString.
Proof. induction s as [|c s IH]; simpl; [done | exact IH]. Qed.

(** X6: a text that consists of one name alone, where the name begins
    and ends with a word character and its uuid has no dollar sign, becomes
    the single link [[name](uuid)]. *)
Theorem linkEntity_whole_text (m : JsMap.t) name uuid :
  JsMap.get m name = Some uuid ->
  JS.includes uuid "$" = false ->
  isWordAt (head name) = true ->
  isWordAt (last None name) = true ->
  linkEntity m name name = Some ("[" +:+ name +:+ "](" +:+ uuid +:+ ")").
Proof.
  intros Hm Hu Hh Hl. unfold linkEntity, replaceWord.
  rewrite Hm, literalOfSource_escapeRegExp. cbn [default]. f_equal.
  destruct name as [|c s]; [done|].
  assert (Hmatch : matchesAt (String c s) None (String c s) = true).
  { unfold matchesAt. rewrite drop_all.
    rewrite <- (append_empty_r (String c s)) at 1. rewrite startsWith_app.
    unfold wordBoundary. rewrite Hh, Hl. reflexivity. }
  cbn [replaceFrom]. rewrite Hmatch.
  rewrite getSubstitution_link by done.
  cbn [String.length]. rewrite Nat.sub_succ, Nat.sub_0_r.
  rewrite replaceFrom_skip_rest by done.
  by rewrite append_empty_r.
Qed.

Lemma linkEntity_whole_text_witness :
  linkEntity [("Indian Contract Act", "u1")] "Indian Contract Act"
    "Indian Contract Act" = Some "[Indian Contract Act](u1)".
Proof.
  apply (linkEntity_whole_text [("Indian Contract Act", "u1")]
           "Indian Contract Act" "u1"); reflexivity.
Defined.

(** X7: a name that begins or ends with a character other than a letter,
    a digit or an underscore is not linked when it is the whole text: the
    text comes back unchanged. *)
Theorem linkEntity_nonword_edge (m : JsMap.t) name :
  isWordAt (head name) = false \/ isWordAt (last None name) = false ->
  linkEntity m name name = Some name.
Proof.
  intros H. apply linkEntity_no_word.
  destruct name as [|c s].
  - simpl. unfold matchesAt. reflexivity.
  - cbn [wordOccurs]. rewrite wordOccurs_short by (simpl; lia).
    rewrite orb_false_r. unfold matchesAt. rewrite drop_all.
    unfold wordBoundary. destruct H as [-> | ->].
    + cbn [isWordAt]. by rewrite andb_false_r.
    + cbn [isWordAt head]. by rewrite andb_false_r.
Qed.

Lemma linkEntity_nonword_edge_witness :
  linkEntity [("Section 4(a)", "u7")] "Section 4(a)" "Section 4(a)" =
  Some "Section 4(a)".
Proof.
  apply (linkEntity_nonword_edge [("Section 4(a)", "u7")] "Section 4(a)").
  right. reflexivity.
Defined.

End LinkFormat.

(** ** The graph model, continued *)

Section GraphModelMore.

Implicit Types (data : GraphData.t) (e : GraphEdge.t) (n : GraphNode.t).

Lemma buildNodes_missing (nodes : list GraphNode.t) n :
  n ∈ nodes -> GraphNode.label n = None -> buildNodes nodes = inl TypeError.
Proof.
  intros Hin Hl. induction nodes as [|n0 ns IH]; [by apply elem_of_nil in Hin|].
  simpl. unfold buildNode at 1.
  destruct (GraphNode.label n0) as [l|] eqn:Hl0; [|done].
  apply elem_of_cons in Hin as [->|Hin]; [congruence|].
  by rewrite IH.
Qed.

(** X8: the build fails exactly when some node of the payload has no
    label, and then with a [TypeError]; ids, edges and metadata never make
    it fail. *)
Theorem graphData_error_iff data (ex : Exception) :
  graphData data = inl ex <->
  ex = TypeError /\
  exists n, n ∈ GraphData.nodes data /\ GraphNode.label n = None.
Proof.
  unfold graphData. split.
  - destruct (buildNodes (GraphData.nodes data)) as [e'|rs] eqn:Hb; [|done].
    intros [= <-]. by apply buildNodes_inl.
  - intros [-> (n & Hin & Hl)]. by rewrite (buildNodes_missing _ n).
Qed.

Lemma buildNode_withType (ty : option string) n :
  buildNode (withType ty n) = buildNode n.
Proof. reflexivity. Qed.

Lemma buildNodes_withType (f : GraphNode.t -> option string)
    (nodes : list GraphNode.t) :
  buildNodes (map (fun n => withType (f n) n) nodes) = buildNodes nodes.
Proof.
  induction nodes as [|n ns IH]; simpl; [done|].
  by rewrite buildNode_withType, IH.
Qed.

(** X9: the [type] of a payload node is never used: whatever types the
    payload supplies, the snapshot is the same, and every node of a
    snapshot has the type that the classifier gives to its name. *)
Theorem graphData_ignores_type data (f : GraphNode.t -> option string) :
  graphData {| GraphData.nodes :=
                 map (fun n => withType (f n) n) (GraphData.nodes data);
               GraphData.edges := GraphData.edges data |} = graphData data /\
  forall snap,
    graphData data = inr snap ->
    Forall (fun r => RenderNode.type r = getNodeType (RenderNode.name r))
      (Snapshot.nodes snap).
Proof.
  split.
  - unfold graphData. simpl. by rewrite buildNodes_withType.
  - intros snap. unfold graphData.
    destruct (buildNodes (GraphData.nodes data)) as [e'|rs] eqn:Hb; [done|].
    intros [= <-]. simpl. apply buildNodes_inr in Hb.
    induction Hb as [|n r ns rs Hn _ IH]; constructor; [|done].
    unfold buildNode in Hn. destruct (GraphNode.label n); [|done].
    by injection Hn as <-.
Qed.

Lemma graphData_ignores_type_witness :
  Forall (fun r => RenderNode.type r = getNodeType (RenderNode.name r))
    [RenderNode.mk (Some "a") "IPC 302" concept None None None].
Proof.
  destruct (graphData_ignores_type danglingPayload (fun _ => Some "law"))
    as (_ & H).
  apply (H {| Snapshot.nodes :=
                [RenderNode.mk (Some "a") "IPC 302" concept None None None];
              Snapshot.links := [RenderLink.mk "a" "ghost" "CITES"] |}).
  reflexivity.
Defined.

(** X10: the legacy-bridge style (dashed, width 2, yellow) is keyed on
    the label that the link displays: an edge with a non-empty label is
    dashed exactly when that label is [EQUIVALENT_TO], whatever its
    relation, and an edge without one exactly when its relation is. *)
Theorem linkLineDash_by_label e :
  let link := buildLink e in
  (forall l, GraphEdge.label e = Some l -> l <> EmptyString ->
     (linkLineDash link = Some [5; 5]%Z <-> l = "EQUIVALENT_TO")) /\
  (GraphEdge.label e = None \/ GraphEdge.label e = Some EmptyString ->
     (linkLineDash link = Some [5; 5]%Z <->
      GraphEdge.relation e = "EQUIVALENT_TO")) /\
  (linkLineDash link = Some [5; 5]%Z <->
   linkWidth link = 2%Z /\ linkColor link = "#EAB308").
Proof.
  assert (Hstyle : forall link,
    (linkLineDash link = Some [5; 5]%Z <->
     RenderLink.label link = "EQUIVALENT_TO") /\
    (linkLineDash link = Some [5; 5]%Z <->
     linkWidth link = 2%Z /\ linkColor link = "#EAB308")).
  { intros link. unfold linkLineDash, linkWidth, linkColor.
    destruct (String.eqb_spec (RenderLink.label link) "EQUIVALENT_TO");
      split; split; try done.
    - by intros [? _]. }
  cbn zeta. split; [|split].
  - intros l Hl Hne. rewrite (proj1 (Hstyle _)). simpl. rewrite Hl.
    by destruct l.
  - intros Hl. rewrite (proj1 (Hstyle _)). simpl.
    by destruct Hl as [-> | ->].
  - apply Hstyle.
Qed.

Lemma linkLineDash_by_label_witness :
  linkLineDash (buildLink (bridgeEdge (Some "replaces"))) = None /\
  linkLineDash (buildLink (bridgeEdge None)) = Some [5; 5]%Z.
Proof.
  destruct (linkLineDash_by_label (bridgeEdge (Some "replaces")))
    as (H1 & _ & _).
  destruct (linkLineDash_by_label (bridgeEdge None)) as (_ & H2 & _).
  split.
  - destruct (linkLineDash (buildLink (bridgeEdge (Some "replaces"))))
      as [d|] eqn:Hd; [|reflexivity].
    specialize (H1 "replaces" eq_refl). discriminate.
  - apply H2; [by left | reflexivity].
Defined.

(** X11: for an edge with a non-empty relation, the label is drawn on the
    link exactly when the zoom factor is at least 0.8, wherever the end
    points are and whatever the label measures. *)
Theorem linkCanvasObject_visibility e (sx sy tx ty globalScale : Q)
    (measureText : Q -> string -> Q) :
  GraphEdge.relation e <> EmptyString ->
  (is_Some (linkCanvasObject (buildLink e) sx sy tx ty globalScale measureText)
   <-> (8 # 10 <= globalScale)%Q).
Proof.
  intros Hrel.
  assert (Hl : JS.truthy (RenderLink.label (buildLink e)) = true).
  { simpl. destruct (GraphEdge.label e) as [l|].
    - destruct (JS.truthy l) eqn:Hl; [done|]. by apply truthy_nonempty.
    - by apply truthy_nonempty. }
  unfold linkCanvasObject. rewrite Hl. cbn [negb orb].
  rewrite <- Qle_bool_iff.
  destruct (Qle_bool (8 # 10) globalScale); simpl; split; done.
Qed.

Lemma linkCanvasObject_visibility_witness :
  is_Some (linkCanvasObject (buildLink ghostEdge) 0 0 10 10 1
             (fun _ _ => 40%Q)) /\
  linkCanvasObject (buildLink ghostEdge) 0 0 10 10 (1 # 2)
    (fun _ _ => 40%Q) = None.
Proof.
  split.
  - apply (linkCanvasObject_visibility ghostEdge); [discriminate|].
    unfold Qle. simpl. lia.
  - destruct (linkCanvasObject (buildLink ghostEdge) 0 0 10 10 (1 # 2)
                (fun _ _ => 40%Q)) as [p|] eqn:Hp; [|reflexivity].
    assert (Hs : is_Some (linkCanvasObject (buildLink ghostEdge) 0 0 10 10
                            (1 # 2) (fun _ _ => 40%Q))) by (rewrite Hp; eauto).
    apply (linkCanvasObject_visibility ghostEdge) in Hs; [|discriminate].
    unfold Qle in Hs. simpl in Hs. lia.
Defined.

End GraphModelMore.

(** ** Node painting, continued *)

Section PaintingMore.

Implicit Types (node : RenderNode.t) (hoveredNode : option (option string)).

Lemma includes_toLowerCase (s m : string) :
  JS.includes s m = true ->
  JS.includes (JS.toLowerCase s) (JS.toLowerCase m) = true.
Proof.
  rewrite !includes_spec. intros (pre & post & ->).
  exists (JS.toLowerCase pre), (JS.toLowerCase post).
  by rewrite !toLowerCase_app.
Qed.

Lemma isBNS_law (name : string) : isBNS name = true -> getNodeType name = law.
Proof.
  unfold isBNS. intros [H|H]%orb_true_iff; apply includes_toLowerCase in H;
    unfold getNodeType; change (JS.toLowerCase "BNS") with "bns" in *;
    change (JS.toLowerCase "Bharatiya") with "bharatiya" in *; rewrite H;
    by rewrite ?orb_true_r.
Qed.

(** X12: outside the two filter modes nothing is dimmed: with no regime
    mode, with [Compare] or with any other value, every node is painted at
    opacity 1, hovered or not. *)
Theorem nodeCanvasObject_no_filter (regimeMode : option string)
    hoveredNode node (scale : Q) :
  regimeMode <> Some "IPC" -> regimeMode <> Some "BNS" ->
  NodePaint.baseOpacity (nodeCanvasObject regimeMode hoveredNode node scale)
    = 1%Q.
Proof.
  intros Hi Hb. simpl.
  destruct (hoverHighlight hoveredNode node); [done|].
  unfold regimeOpacity. destruct regimeMode as [mode|]; [|done].
  destruct (JS.truthy mode && negb (String.eqb mode "Compare")); [|done].
  destruct (String.eqb_spec mode "IPC") as [->|_]; [done|].
  destruct (String.eqb_spec mode "BNS") as [->|_]; done.
Qed.

Lemma nodeCanvasObject_no_filter_witness :
  NodePaint.baseOpacity
    (nodeCanvasObject (Some "Compare") None hoveredSample 1) = 1%Q /\
  NodePaint.baseOpacity (nodeCanvasObject None None hoveredSample 1) = 1%Q.
Proof.
  split.
  - apply (nodeCanvasObject_no_filter (Some "Compare")); discriminate.
  - apply (nodeCanvasObject_no_filter None); discriminate.
Defined.



(** X14: once the pointer is on a node whose id is not empty, that node
    is painted at opacity 1 in the highlight colour, in every regime mode;
    and when the pointer has left ([handleNodeHover(null)]) no node gets the
    highlight. *)
Theorem hover_forces_highlight (regimeMode : option string) node
    (i : string) (scale : Q) :
  RenderNode.id node = Some i -> i <> EmptyString ->
  let paint :=
    nodeCanvasObject regimeMode (handleNodeHover (Some node)) node scale in
  NodePaint.baseOpacity paint = 1%Q /\
  NodePaint.nodeColor paint = "#f59e0b" /\
  forall other, hoverHighlight (handleNodeHover None) other = false.
Proof.
  intros Hi Hne.
  pose proof (hoverHighlight_after_hover node i Hi Hne) as Hh.
  cbn zeta. unfold nodeCanvasObject. cbn [NodePaint.baseOpacity
    NodePaint.nodeColor]. rewrite Hh. done.
Qed.

Lemma hover_forces_highlight_witness :
  NodePaint.baseOpacity
    (nodeCanvasObject (Some "IPC")
       (handleNodeHover (Some (RenderNode.mk (Some "n2") "BNS 103" law None None None)))
       (RenderNode.mk (Some "n2") "BNS 103" law None None None) 1) = 1%Q.
Proof.
  apply (hover_forces_highlight (Some "IPC")
           (RenderNode.mk (Some "n2") "BNS 103" law None None None) "n2" 1);
    [reflexivity | discriminate].
Defined.

(** X15: a node of a built snapshot that the [IPC] filter dims is always
    a law node: it is painted with radius 8 and a bold label. *)
Theorem dimmed_in_IPC_is_law (n : GraphNode.t) node hoveredNode (scale : Q) :
  buildNode n = inr node ->
  NodePaint.baseOpacity (nodeCanvasObject (Some "IPC") hoveredNode node scale)
    = (1 # 10)%Q ->
  let paint := nodeCanvasObject (Some "IPC") hoveredNode node scale in
  RenderNode.type node = law /\
  NodePaint.nodeRadius paint = 8%Z /\ NodePaint.bold paint = true.
Proof.
  intros Hb Hdim.
  rewrite (nodeCanvasObject_opacity "IPC" _ _ _ (or_introl eq_refl)) in Hdim.
  destruct (hoverHighlight hoveredNode node); [done|].
  unfold otherRegime in Hdim. simpl in Hdim. rewrite orb_false_r in Hdim.
  destruct (isBNS (RenderNode.name node)) eqn:HB; [|done].
  unfold buildNode in Hb. destruct (GraphNode.label n) as [l|]; [|done].
  injection Hb as <-. simpl in *. apply isBNS_law in HB.
  by rewrite HB.
Qed.

Lemma dimmed_in_IPC_is_law_witness :
  RenderNode.type
    (RenderNode.mk (Some "n2") "BNS 103" (getNodeType "BNS 103") None None None)
  = law.
Proof.
  apply (dimmed_in_IPC_is_law (sampleNode (Some "n2") (Some "BNS 103"))
           (RenderNode.mk (Some "n2") "BNS 103" (getNodeType "BNS 103")
              None None None) None 1); reflexivity.
Defined.

End PaintingMore.

(** ** The auto-focus effect, continued *)

Section FocusMore.

Implicit Types (nodes : list GraphNode.t) (cam : Camera).

(** X16: the effect does nothing, and leaves the graph handle as it is,
    when there is no focus id, when the id is empty, when the graph is not
    mounted, or when no node has the id as its [id]; a node that has it only
    as its [citation_uuid] is not found. *)
Theorem autoFocus_noop_cases (now : Z) (f : option string)
    (fgRef : option Camera) nodes :
  f = None \/ f = Some EmptyString \/ fgRef = None \/
  (exists X, f = Some X /\ forall n, n ∈ nodes -> GraphNode.id n <> Some X) ->
  autoFocus now f fgRef nodes = fgRef.
Proof.
  intros [-> | [-> | [-> | (X & -> & H)]]].
  - done.
  - by destruct fgRef.
  - by destruct f.
  - unfold autoFocus. destruct fgRef as [cam|]; [|done].
    destruct (JS.truthy X); [|done]. by rewrite find_id_absent.
Qed.

Lemma autoFocus_noop_cases_witness :
  autoFocus 0 (Some "c-17") (Some []) [citedNode "n1" "c-17"] = Some [].
Proof.
  apply (autoFocus_noop_cases 0 (Some "c-17") (Some []) [citedNode "n1" "c-17"]).
  right. right. right. exists "c-17". split; [reflexivity|].
  intros n Hn. apply list_elem_of_singleton in Hn. subst n. discriminate.
Defined.

(** X17: when several nodes share the focus id, the camera is centred on
    the first of them in payload order. *)
Theorem autoFocus_first_match (now : Z) (f : string) cam
    (pre post : list GraphNode.t) (n : GraphNode.t) :
  JS.truthy f = true ->
  GraphNode.id n = Some f ->
  (forall n', n' ∈ pre -> GraphNode.id n' <> Some f) ->
  autoFocus now (Some f) (Some cam) (pre ++ n :: post) =
  Some (cam ++ [(now, centerAt (GraphNode.x n) (GraphNode.y n) 1000);
                (now, zoom 6 2000)]).
Proof.
  intros Ht Hid Hpre. unfold autoFocus. rewrite Ht.
  assert (Hf : find (fun n => bool_decide (GraphNode.id n = Some f))
                 (pre ++ n :: post) = Some n).
  { apply find_first. exists pre, post. split; [done|]. split.
    - by apply bool_decide_eq_true.
    - intros b Hb. apply bool_decide_eq_false. by apply Hpre. }
  by rewrite Hf.
Qed.

Lemma autoFocus_first_match_witness :
  autoFocus 0 (Some "n1") (Some [])
    [placedNode "n0" 1 2; placedNode "n1" 10 20; placedNode "n1" 30 40] =
  Some [(0%Z, centerAt (Some 10%Z) (Some 20%Z) 1000); (0%Z, zoom 6 2000)].
Proof.
  apply (autoFocus_first_match 0 "n1" [] [placedNode "n0" 1 2]
           [placedNode "n1" 30 40] (placedNode "n1" 10 20)).
  - reflexivity.
  - reflexivity.
  - intros n' Hn. apply list_elem_of_singleton in Hn. subst n'. discriminate.
Defined.

(** X18: the effect never cancels or reorders a camera call: the calls
    already made stay in place, and a run adds either nothing or the pair
    [centerAt], [zoom]; so of two focus requests in a row, both pairs
    reach the graph handle. *)
Theorem autoFocus_appends (now : Z) (f : option string) cam nodes :
  exists calls,
    autoFocus now f (Some cam) nodes = Some (cam ++ calls) /\
    (calls = [] \/
     exists x y, calls = [(now, centerAt x y 1000); (now, zoom 6 2000)]).
Proof.
  unfold autoFocus. destruct f as [f|].
  - destruct (JS.truthy f).
    + destruct (find _ nodes) as [node|].
      * eexists. split; [done|]. right. eauto.
      * exists []. split; [by rewrite app_nil_r | by left].
    + exists []. split; [by rewrite app_nil_r | by left].
  - exists []. split; [by rewrite app_nil_r | by left].
Qed.

End FocusMore.

(** ** The shared store, continued *)

Section StoreMore.

Implicit Types (node : RenderNode.t) (store : AppStore.t).

(** X19: after a click on a node with a non-empty [citationUuid], the
    citation cards that are active are exactly those with that uuid; a
    click on a node without one keeps the active cards as they were; and
    in the initial store no card is active. *)
Theorem isActive_after_click node store (uuid : string) :
  (forall u, RenderNode.citationUuid node = Some u -> u <> EmptyString ->
     isActive (handleNodeClick node store) uuid = bool_decide (uuid = u)) /\
  (JS.truthy_opt (RenderNode.citationUuid node) = false ->
     isActive (handleNodeClick node store) uuid = isActive store uuid) /\
  isActive AppStore.initial uuid = false.
Proof.
  split; [|split].
  - intros u Hu Hne. unfold handleNodeClick, isActive. rewrite Hu. simpl.
    apply truthy_nonempty in Hne. rewrite Hne, setActiveNodeId_insert.
    rewrite lookup_insert_eq. apply bool_decide_ext. split; congruence.
  - intros H. unfold handleNodeClick. by rewrite H.
  - done.
Qed.

Lemma isActive_after_click_witness :
  isActive
    (handleNodeClick
       (RenderNode.mk (Some "n1") "IPC 302" concept (Some "u1") None None)
       AppStore.initial) "u1" = true.
Proof.
  destruct (isActive_after_click
              (RenderNode.mk (Some "n1") "IPC 302" concept (Some "u1") None None)
              AppStore.initial "u1") as (H & _ & _).
  rewrite (H "u1" eq_refl); [reflexivity | discriminate].
Defined.

(** X20: clicks compose by last write: a click on a node with a non-empty
    [citationUuid] erases the effect of any earlier click, and clicking the
    same node twice is the same as clicking it once. *)
Theorem handleNodeClick_last_wins node1 node2 store :
  JS.truthy_opt (RenderNode.citationUuid node2) = true ->
  handleNodeClick node2 (handleNodeClick node1 store) =
    handleNodeClick node2 store /\
  handleNodeClick node1 (handleNodeClick node1 store) =
    handleNodeClick node1 store.
Proof.
  intros H2. unfold handleNodeClick. rewrite H2. split.
  - destruct (JS.truthy_opt (RenderNode.citationUuid node1)); [|done].
    rewrite !setActiveNodeId_insert. apply insert_insert_eq.
  - destruct (JS.truthy_opt (RenderNode.citationUuid node1)) eqn:H1;
      rewrite ?H1; [|done].
    rewrite !setActiveNodeId_insert. apply insert_insert_eq.
Qed.

Lemma handleNodeClick_last_wins_witness :
  handleNodeClick
    (RenderNode.mk (Some "n2") "BNS 103" law (Some "u2") None None)
    (handleNodeClick
       (RenderNode.mk (Some "n1") "IPC 302" concept (Some "u1") None None)
       AppStore.initial) =
  handleNodeClick
    (RenderNode.mk (Some "n2") "BNS 103" law (Some "u2") None None)
    AppStore.initial.
Proof.
  apply (handleNodeClick_last_wins
           (RenderNode.mk (Some "n1") "IPC 302" concept (Some "u1") None None)
           (RenderNode.mk (Some "n2") "BNS 103" law (Some "u2") None None)
           AppStore.initial).
  reflexivity.
Defined.

End StoreMore.

(** ** Sessions of the chat tab *)

Section Sessions.

Implicit Types (st : Page.t) (s : Session.t) (evs : list PageEvent).

Lemma handleSubmit_send_ready st :
  submitDisabled st = false ->
  exists st' req,
    handleSubmit_send st = (st', Some req) /\
    Page.isLoading st' = true.
Proof.
  unfold submitDisabled, handleSubmit_send.
  intros [_ Hb]%orb_false_iff. rewrite Hb. eauto.
Qed.

Lemma sessionStep_invariant s ev :
  Session.inFlight s = (if Page.isLoading (Session.page s) then 1 else 0)%nat ->
  Session.inFlight (sessionStep s ev) =
    (if Page.isLoading (Session.page (sessionStep s ev)) then 1 else 0)%nat.
Proof.
  intros Hinv. destruct ev as [q| |outcome]; simpl.
  - done.
  - destruct (submitDisabled (Session.page s)) eqn:Hd; [done|].
    destruct (handleSubmit_send_ready _ Hd) as (st' & req & -> & Hl).
    simpl. rewrite Hl.
    unfold submitDisabled in Hd. apply orb_false_iff in Hd as [Hd _].
    rewrite Hd in Hinv. by rewrite Hinv.
  - destruct (Session.inFlight s) as [|n] eqn:Hn; [by rewrite Hn|].
    simpl. destruct (Page.isLoading (Session.page s)); [|done].
    injection Hinv as ->. by destruct outcome.
Qed.

(** X21: in a session driven through the submit control, starting with
    no request pending, at most one request is in flight at any time, and
    one is in flight exactly while [isLoading] holds; so a response that
    arrives always answers the last request sent. *)
Theorem session_one_in_flight st evs :
  Page.isLoading st = false ->
  let s := sessionRun (Session.mk st 0) evs in
  (Session.inFlight s <= 1)%nat /\
  (Session.inFlight s = 1%nat <-> Page.isLoading (Session.page s) = true).
Proof.
  intros H0. cbn zeta.
  assert (Hinv : Session.inFlight (sessionRun (Session.mk st 0) evs) =
    (if Page.isLoading (Session.page (sessionRun (Session.mk st 0) evs))
     then 1 else 0)%nat).
  { unfold sessionRun.
    assert (Hs : Session.inFlight (Session.mk st 0) =
      (if Page.isLoading (Session.page (Session.mk st 0)) then 1 else 0)%nat)
      by (simpl; by rewrite H0).
    revert Hs. generalize (Session.mk st 0).
    induction evs as [|ev evs IH]; intros s Hs; simpl; [done|].
    by apply IH, sessionStep_invariant. }
  rewrite Hinv.
  destruct (Page.isLoading (Session.page (sessionRun (Session.mk st 0) evs)));
    split; try lia; split; done.
Qed.

Lemma session_one_in_flight_witness :
  Session.inFlight
    (sessionRun (Session.mk (pageWith "" None) 0)
       [TypeQuery "theft"; ClickSubmit; TypeQuery "murder"; ClickSubmit])
  = 1%nat.
Proof.
  apply (session_one_in_flight (pageWith "" None)
           [TypeQuery "theft"; ClickSubmit; TypeQuery "murder"; ClickSubmit]
           eq_refl).
  reflexivity.
Defined.

Lemma sessionStep_chat_grows s ev :
  Page.chatMessages (Session.page s) `prefix_of`
  Page.chatMessages (Session.page (sessionStep s ev)).
Proof.
  destruct ev as [q| |outcome]; simpl.
  - done.
  - destruct (submitDisabled (Session.page s)); [done|].
    unfold handleSubmit_send.
    destruct (isBlank (Page.query (Session.page s))); simpl;
      [done | by apply prefix_app_r].
  - destruct (Session.inFlight s); [done|]. simpl.
    destruct outcome; simpl; by apply prefix_app_r.
Qed.

(** X22: the chat history only grows: whatever is typed, submitted or
    received, the messages present before are still there, in the same
    order, at the start of the history. *)
Theorem session_chat_append_only s evs :
  Page.chatMessages (Session.page s) `prefix_of`
  Page.chatMessages (Session.page (sessionRun s evs)).
Proof.
  unfold sessionRun. revert s.
  induction evs as [|ev evs IH]; intros s; simpl; [done|].
  etrans; [apply (sessionStep_chat_grows s ev) | apply IH].
Qed.



End Sessions.

(** ** The drafting panel *)

Section DraftingPanel.

Implicit Types (st : Drafting.t).



End DraftingPanel.

(** ** The audit panel *)

Section AuditPanel.

Implicit Types (st : Audit.t) (f : AuditFile.t) (s suffix stem : string).

Lemma length_append s t :
  String.length (s +:+ t) = (String.length s + String.length t)%nat.
Proof.
  induction s as [|c s IH]; [done|].
  rewrite append_cons. simpl. by rewrite IH.
Qed.

Lemma drop_append s t : drop (String.length s) (s +:+ t) = t.
Proof.
  induction s as [|c s IH]; [by destruct t|].
  rewrite append_cons. simpl. exact IH.
Qed.

Lemma drop_suffix (k : nat) s : exists pre, s = pre +:+ drop k s.
Proof.
  revert s. induction k as [|k IH]; intros s.
  - exists EmptyString. by destruct s.
  - destruct s as [|c s]; [by exists EmptyString|].
    destruct (IH s) as [pre Hpre]. exists (String c pre).
    rewrite append_cons. simpl. by rewrite <- Hpre.
Qed.

(** [endsWith] holds exactly of the strings that are a stem followed by
    the suffix. *)
Lemma endsWith_spec s suffix :
  endsWith s suffix = true <-> exists stem, s = stem +:+ suffix.
Proof.
  unfold endsWith. split.
  - intros [_ H]%andb_true_iff. apply String.eqb_eq in H.
    destruct (drop_suffix (String.length s - String.length suffix) s)
      as [pre Hpre].
    exists pre. by rewrite H in Hpre.
  - intros [stem ->]. rewrite length_append. apply andb_true_iff. split.
    + apply Nat.leb_le. lia.
    + replace (String.length stem + String.length suffix
               - String.length suffix)%nat with (String.length stem) by lia.
      rewrite drop_append. apply String.eqb_refl.
Qed.

(** X25: a drop always ends the dragging state. The first dropped file is
    taken, and the previous result and error cleared, exactly when its
    name is a stem followed by [.txt] or [.pdf] in lower case; any other
    file leaves the chosen file and the result as they were and sets the
    error message. *)
Theorem handleDrop_filter f (rest : list AuditFile.t) st :
  let st' := handleDrop (f :: rest) st in
  Audit.isDragging st' = false /\
  ((exists stem, AuditFile.name f = stem +:+ ".txt" \/
                 AuditFile.name f = stem +:+ ".pdf") ->
   Audit.file st' = Some f /\ Audit.result st' = None /\
   Audit.error st' = None) /\
  (~ (exists stem, AuditFile.name f = stem +:+ ".txt" \/
                   AuditFile.name f = stem +:+ ".pdf") ->
   Audit.file st' = Audit.file st /\ Audit.result st' = Audit.result st /\
   Audit.error st' = Some "Only .txt and .pdf files are supported.").
Proof.
  cbn zeta. unfold handleDrop.
  destruct (endsWith (AuditFile.name f) ".txt"
            || endsWith (AuditFile.name f) ".pdf") eqn:He.
  - split; [done|]. split; [done|]. intros Hn. destruct Hn.
    apply orb_true_iff in He as [He|He]; apply endsWith_spec in He as [stem H];
      exists stem; [by left | by right].
  - split; [done|]. split; [|done]. intros (stem & [H|H]).
    + apply orb_false_iff in He as [He _].
      assert (endsWith (AuditFile.name f) ".txt" = true)
        by (apply endsWith_spec; eauto). congruence.
    + apply orb_false_iff in He as [_ He].
      assert (endsWith (AuditFile.name f) ".pdf" = true)
        by (apply endsWith_spec; eauto). congruence.
Qed.

Lemma handleDrop_filter_witness :
  Audit.file
    (handleDrop [AuditFile.mk "brief.pdf"] (Audit.mk None false None None true))
  = Some (AuditFile.mk "brief.pdf") /\
  Audit.file
    (handleDrop [AuditFile.mk "BRIEF.PDF"] (Audit.mk None false None None true))
  = None.
Proof.
  destruct (handleDrop_filter (AuditFile.mk "brief.pdf") []
              (Audit.mk None false None None true)) as (_ & H1 & _).
  destruct (handleDrop_filter (AuditFile.mk "BRIEF.PDF") []
              (Audit.mk None false None None true)) as (_ & _ & H2).
  split.
  - apply H1. exists "brief". by right.
  - apply H2. intros (stem & [H|H]).
    + assert (E : endsWith "BRIEF.PDF" ".txt" = true)
        by (apply endsWith_spec; exists stem; exact H).
      vm_compute in E. discriminate E.
    + assert (E : endsWith "BRIEF.PDF" ".pdf" = true)
        by (apply endsWith_spec; exists stem; exact H).
      vm_compute in E. discriminate E.
Defined.

(** X26: an audit run, from the click to the outcome: without a file
    nothing starts; with one, when the run is over the file is still
    chosen, auditing has ended, and the panel holds either the result of
    the response and no error, or no result and an error message, which is
    never empty when the service has refused the file. *)
Theorem handleAudit_result_or_error st f (outcome : AuditOutcome) :
  (Audit.file st = None -> handleAudit_send st = (st, None)) /\
  (Audit.file st = Some f ->
   let st2 := handleAudit_receive outcome (fst (handleAudit_send st)) in
   snd (handleAudit_send st) = Some f /\
   Audit.file st2 = Some f /\ Audit.isAuditing st2 = false /\
   match outcome with
   | AuditOk data => Audit.result st2 = Some data /\ Audit.error st2 = None
   | AuditNotOk _ =>
       Audit.result st2 = None /\
       exists msg, Audit.error st2 = Some msg /\ msg <> EmptyString
   | AuditThrown message =>
       Audit.result st2 = None /\ Audit.error st2 = Some message
   end).
Proof.
  unfold handleAudit_send. split; intros Hf; rewrite Hf; [done|].
  cbn zeta. cbn [fst snd]. destruct outcome as [data|detail|message]; simpl;
    repeat split.
  eexists. split; [done|].
  destruct detail as [d|]; simpl; [|done].
  destruct d; simpl; done.
Qed.

Lemma handleAudit_result_or_error_witness :
  Audit.error
    (handleAudit_receive (AuditNotOk None)
       (fst (handleAudit_send
               (Audit.mk (Some (AuditFile.mk "brief.pdf")) false None
                  (Some "stale") false)))) = Some "Audit failed".
Proof.
  destruct (handleAudit_result_or_error
              (Audit.mk (Some (AuditFile.mk "brief.pdf")) false None
                 (Some "stale") false)
              (AuditFile.mk "brief.pdf") (AuditNotOk None)) as (_ & H).
  destruct (H eq_refl) as (_ & _ & _ & _ & msg & Hmsg & _).
  rewrite Hmsg. simpl in Hmsg. exact (eq_sym Hmsg).
Defined.

End AuditPanel.
